(** * Position mapping of prosemirror/transform/map.py

    A shallow embedding of [StepMap] and [Mapping] and the properties of
    position mapping, recovery tokens and mirror recovery.

    Modelling conventions.
    - Python integers are [Z].  List subscripts follow Python: a negative
      subscript counts from the end and a subscript outside the list raises
      [IndexError].
    - A method that can raise returns [res A]; the methods that mutate
      [self] return the new state of the receiver.
    - [make_recover] receives its index as the float [i / 3] where [i] is a
      multiple of three, and [recover_offset] divides a multiple of [2**16]
      by [2**16]: both are integer valued and are read here in exact
      arithmetic, which is what the float operations compute as long as
      the token stays below [2**53]. *)

From Stdlib Require Import ZArith List Bool Lia.
Import ListNotations.
Local Open Scope Z_scope.

(** ** Exceptions and results *)

Inductive exn : Set :=
| IndexError
| OutOfFuel.

Inductive res (A : Type) : Type :=
| Ok (a : A)
| Raise (e : exn).

Arguments Ok {A} a.
Arguments Raise {A} e.

Definition bind {A B : Type} (m : res A) (k : A -> res B) : res B :=
  match m with
  | Ok a => k a
  | Raise e => Raise e
  end.

Definition fmap {A B : Type} (f : A -> B) (m : res A) : res B :=
  bind m (fun a => Ok (f a)).

Notation "x <- m ;; k" := (bind m (fun x => k))
  (at level 61, m at next level, right associativity).

(** ** Python lists and ranges *)

Definition len {A : Type} (l : list A) : Z := Z.of_nat (length l).

(** [l[i]] *)
Definition getitem {A : Type} (l : list A) (i : Z) : res A :=
  let j := if i <? 0 then i + len l else i in
  if j <? 0 then Raise IndexError
  else match nth_error l (Z.to_nat j) with
       | Some x => Ok x
       | None => Raise IndexError
       end.

(** [range(start, stop, step)] for a positive [step] *)
Definition py_range (start stop step : Z) : list Z :=
  List.map (fun k => start + Z.of_nat k * step)
      (seq 0 (Z.to_nat ((stop - start + step - 1) / step))).

(** ** Recovery tokens *)

Definition lower16 : Z := 65535.
Definition factor16 : Z := 2 ^ 16.

Definition make_recover (index offset : Z) : Z :=
  index + offset * factor16.

Definition recover_index (value : Z) : Z :=
  Z.land value lower16.

Definition recover_offset (value : Z) : Z :=
  (value - Z.land value lower16) / factor16.

Definition DEL_BEFORE : Z := 1.
Definition DEL_AFTER : Z := 2.
Definition DEL_ACROSS : Z := 4.
Definition DEL_SIDE : Z := 8.

Module MapResult.

Record t : Set := mk {
  pos : Z;
  del_info : Z;
  recover : option Z
}.

Definition deleted (self : t) : bool :=
  Z.land (del_info self) DEL_SIDE >? 0.

Definition deleted_before (self : t) : bool :=
  Z.land (del_info self) (Z.lor DEL_BEFORE DEL_ACROSS) >? 0.

Definition deleted_after (self : t) : bool :=
  Z.land (del_info self) (Z.lor DEL_AFTER DEL_ACROSS) >? 0.

Definition deleted_across (self : t) : bool :=
  Z.land (del_info self) DEL_ACROSS >? 0.

End MapResult.

(** ** StepMap *)

Module StepMap.

Record t : Set := mk {
  ranges : list Z;
  inverted : bool
}.

Definition empty : t := mk [] false.

(** The return type of [_map], after its two [@overload] signatures. *)
Definition ret (simple : bool) : Set := if simple then Z else MapResult.t.

(** The [for] loop of [recover]: the sizes of the ranges before [index]. *)
Definition recover_diff (self : t) (index : Z) : res Z :=
  fold_left
    (fun acc i =>
       diff <- acc ;;
       a <- getitem (ranges self) (i * 3 + 2) ;;
       b <- getitem (ranges self) (i * 3 + 1) ;;
       Ok (diff + (a - b)))
    (py_range 0 index 1) (Ok 0).

Definition recover (self : t) (value : Z) : res Z :=
  let index := recover_index value in
  diff <- (if negb (inverted self) then recover_diff self index else Ok 0) ;;
  s <- getitem (ranges self) (index * 3) ;;
  Ok (s + diff + recover_offset value).

(** The statement after the [for] loop of [_map]. *)
Definition _map_end (pos diff : Z) (simple : bool) : res (ret simple) :=
  match simple return res (ret simple) with
  | true => Ok (pos + diff)
  | false => Ok (MapResult.mk (pos + diff) 0 None)
  end.

(** The [for] loop of [_map] over the indices [idx] still to visit. *)
Fixpoint _map_loop (self : t) (pos assoc : Z) (simple : bool)
    (idx : list Z) (diff : Z) : res (ret simple) :=
  match idx with
  | [] => _map_end pos diff simple
  | i :: idx' =>
    let old_index := if inverted self then 2 else 1 in
    let new_index := if inverted self then 1 else 2 in
    r <- getitem (ranges self) i ;;
    let start := r - (if inverted self then diff else 0) in
    if start >? pos then _map_end pos diff simple
    else
      old_size <- getitem (ranges self) (i + old_index) ;;
      new_size <- getitem (ranges self) (i + new_index) ;;
      let end_ := start + old_size in
      if pos <=? end_ then
        let side :=
          if old_size =? 0 then assoc
          else if pos =? start then -1
          else if pos =? end_ then 1
          else assoc in
        let result := start + diff + (if side <? 0 then 0 else new_size) in
        match simple return res (ret simple) with
        | true => Ok result
        | false =>
          let recover :=
            if pos =? (if assoc <? 0 then start else end_) then None
            else Some (make_recover (i / 3) (pos - start)) in
          let del_info :=
            if pos =? start then DEL_AFTER
            else if pos =? end_ then DEL_BEFORE else DEL_ACROSS in
          let del_info :=
            if (if assoc <? 0 then negb (pos =? start) else negb (pos =? end_))
            then Z.lor del_info DEL_SIDE else del_info in
          Ok (MapResult.mk result del_info recover)
        end
      else _map_loop self pos assoc simple idx' (diff + (new_size - old_size))
  end.

Definition _map (self : t) (pos assoc : Z) (simple : bool) : res (ret simple) :=
  _map_loop self pos assoc simple (py_range 0 (len (ranges self)) 3) 0.

Definition map (self : t) (pos assoc : Z) : res Z :=
  _map self pos assoc true.

Definition map_result (self : t) (pos assoc : Z) : res MapResult.t :=
  _map self pos assoc false.

(** The [for] loop of [touches]. *)
Fixpoint touches_loop (self : t) (pos index : Z) (idx : list Z) (diff : Z)
    : res bool :=
  match idx with
  | [] => Ok false
  | i :: idx' =>
    let old_index := if inverted self then 2 else 1 in
    let new_index := if inverted self then 1 else 2 in
    r <- getitem (ranges self) i ;;
    let start := r - (if inverted self then diff else 0) in
    if start >? pos then Ok false
    else
      old_size <- getitem (ranges self) (i + old_index) ;;
      let end_ := start + old_size in
      if (pos <=? end_) && (i =? index * 3) then Ok true
      else
        new_size <- getitem (ranges self) (i + new_index) ;;
        touches_loop self pos index idx' (diff + (new_size - old_size))
  end.

Definition touches (self : t) (pos recover : Z) : res bool :=
  touches_loop self pos (recover_index recover)
    (py_range (len (ranges self)) 3 1) 0.

Definition invert (self : t) : t :=
  mk (ranges self) (negb (inverted self)).

(** The [while] loop of [for_each]: the arguments of the calls of [f], in
    order, and how the loop ends.  [f] is taken to return normally and to
    leave the map alone. *)
Fixpoint for_each_loop (fuel : nat) (self : t) (i diff : Z)
    : list (Z * Z * Z * Z) * res unit :=
  let old_index := if inverted self then 2 else 1 in
  let new_index := if inverted self then 1 else 2 in
  if i <? len (ranges self) then
    match fuel with
    | O => ([], Raise OutOfFuel)
    | S fuel' =>
      match getitem (ranges self) i with
      | Raise e => ([], Raise e)
      | Ok start =>
        let old_start := start - (if inverted self then diff else 0) in
        let new_start := start + (if inverted self then 0 else diff) in
        match getitem (ranges self) (i + old_index) with
        | Raise e => ([], Raise e)
        | Ok old_size =>
          match getitem (ranges self) (i + new_index) with
          | Raise e => ([], Raise e)
          | Ok new_size =>
            let call := (old_start, old_start + old_size,
                         new_start, new_start + new_size) in
            let (calls, r) := for_each_loop fuel' self (i + 3) diff in
            (call :: calls, r)
          end
        end
      end
    end
  else ([], Ok tt).

Definition for_each (self : t) : list (Z * Z * Z * Z) * res unit :=
  for_each_loop (length (ranges self)) self 0 0.

End StepMap.

(** ** Mapping *)

Module Mapping.

Record t : Set := mk {
  maps : list StepMap.t;
  mirror : option (list Z);
  from_ : Z;
  to : Z
}.

(** Truth value of [self.mirror]: [None] and the empty list are false. *)
Definition truthy {A : Type} (l : option (list A)) : bool :=
  match l with
  | Some (_ :: _) => true
  | _ => false
  end.

(** [Mapping(maps, mirror, from_, to)] *)
Definition init (maps : option (list StepMap.t)) (mirror : option (list Z))
    (from_ to : option Z) : t :=
  let maps := if truthy maps then match maps with Some l => l | None => [] end
              else [] in
  let from_ := match from_ with Some f => f | None => 0 end in
  let to := match to with None => len maps | Some n => n end in
  mk maps mirror from_ to.

Fixpoint get_mirror_loop (mirror : list Z) (n : Z) (idx : list Z)
    : res (option Z) :=
  match idx with
  | [] => Ok None
  | i :: idx' =>
    x <- getitem mirror i ;;
    if x =? n then
      y <- getitem mirror (i + (if negb (i mod 2 =? 0) then -1 else 1)) ;;
      Ok (Some y)
    else get_mirror_loop mirror n idx'
  end.

Definition get_mirror (self : t) (n : Z) : res (option Z) :=
  if truthy (mirror self) then
    match mirror self with
    | Some l => get_mirror_loop l n (py_range 0 (len l) 1)
    | None => Ok None
    end
  else Ok None.

Definition set_mirror (self : t) (n m : Z) : t :=
  let l := if truthy (mirror self)
           then match mirror self with Some l => l | None => [] end
           else [] in
  mk (maps self) (Some (l ++ [n; m])) (from_ self) (to self).

Definition append_map (self : t) (map : StepMap.t) (mirrors : option Z) : t :=
  let maps' := maps self ++ [map] in
  let self := mk maps' (mirror self) (from_ self) (len maps') in
  match mirrors with
  | Some m => set_mirror self (len (maps self) - 1) m
  | None => self
  end.

(** The [while] loop of [append_mapping]; the argument is a chain other
    than the receiver, so its length stays fixed during the loop. *)
Fixpoint append_mapping_loop (fuel : nat) (self mapping : t)
    (i start_size : Z) : res t :=
  if i <? len (maps mapping) then
    match fuel with
    | O => Raise OutOfFuel
    | S fuel' =>
      mirr <- get_mirror mapping i ;;
      let i := i + 1 in
      m <- getitem (maps mapping) i ;;
      let mirrors :=
        match mirr with
        | Some mi => if mi <? i then Some (start_size + mi) else None
        | None => None
        end in
      append_mapping_loop fuel' (append_map self m mirrors) mapping
        i start_size
    end
  else Ok self.

Definition append_mapping (self mapping : t) : res t :=
  append_mapping_loop (length (maps mapping)) self mapping 0
    (len (maps self)).

(** The [while] loop of [_map]: the position and the deletion flags after
    the maps from [i] up to [self.to]. *)
Fixpoint _map_loop (fuel : nat) (self : t) (assoc : Z) (i pos del_info : Z)
    : res (Z * Z) :=
  if i <? to self then
    match fuel with
    | O => Raise OutOfFuel
    | S fuel' =>
      map <- getitem (maps self) i ;;
      result <- StepMap.map_result map pos assoc ;;
      let plain :=
        _map_loop fuel' self assoc (i + 1) (MapResult.pos result)
          (Z.lor del_info (MapResult.del_info result)) in
      match MapResult.recover result with
      | Some token =>
        corr <- get_mirror self i ;;
        match corr with
        | Some corr =>
          if (corr >? i) && (corr <? to self) then
            partner <- getitem (maps self) corr ;;
            pos' <- StepMap.recover partner token ;;
            _map_loop fuel' self assoc (corr + 1) pos' del_info
          else plain
        | None => plain
        end
      | None => plain
      end
    end
  else Ok (pos, del_info).

Definition _map (self : t) (pos assoc : Z) (simple : bool)
    : res (StepMap.ret simple) :=
  r <- _map_loop (Z.to_nat (to self - from_ self)) self assoc
         (from_ self) pos 0 ;;
  match simple return res (StepMap.ret simple) with
  | true => Ok (fst r)
  | false => Ok (MapResult.mk (fst r) (snd r) None)
  end.

Definition map (self : t) (pos assoc : Z) : res Z :=
  if truthy (mirror self) then _map self pos assoc true
  else
    fold_left
      (fun acc i =>
         pos <- acc ;;
         m <- getitem (maps self) i ;;
         StepMap.map m pos assoc)
      (py_range (from_ self) (to self) 1) (Ok pos).

Definition map_result (self : t) (pos assoc : Z) : res MapResult.t :=
  _map self pos assoc false.

(** [slice(from_, to)]; the caller passes [0] for a missing [from_]. *)
Definition slice (self : t) (from_ : Z) (to : option Z) : t :=
  let to := match to with None => len (maps self) | Some n => n end in
  init (Some (maps self)) (mirror self) (Some from_) (Some to).

Definition copy (self : t) : t :=
  init (Some (maps self))
    (if truthy (mirror self) then mirror self else None)
    (Some (from_ self)) (Some (to self)).

(** The [while] loop of [append_mapping_inverted], for an argument other
    than the receiver. *)
Fixpoint append_mapping_inverted_loop (fuel : nat) (self mapping : t)
    (i total_size : Z) : res t :=
  if i >=? 0 then
    match fuel with
    | O => Raise OutOfFuel
    | S fuel' =>
      mirr <- get_mirror mapping i ;;
      m <- getitem (maps mapping) i ;;
      let mirrors :=
        match mirr with
        | Some mi => if mi >? i then Some (total_size - mi - 1) else None
        | None => None
        end in
      append_mapping_inverted_loop fuel'
        (append_map self (StepMap.invert m) mirrors) mapping
        (i - 1) total_size
    end
  else Ok self.

Definition append_mapping_inverted (self mapping : t) : res t :=
  append_mapping_inverted_loop (length (maps mapping)) self mapping
    (len (maps mapping) - 1) (len (maps self) + len (maps mapping)).

Definition invert (self : t) : res t :=
  append_mapping_inverted (init None None None None) self.

End Mapping.

(** ** Range tables as lists of triples

    A range table is read three entries at a time; [flat] lays a list of
    [(start, oldSize, newSize)] triples out as the flat list the code
    stores. *)

Abbreviation triple := (Z * Z * Z)%type.

Definition flat (ts : list triple) : list Z :=
  flat_map (fun t : triple => let '(s, o, n) := t in [s; o; n]) ts.

Definition start_of (inv : bool) (diff : Z) (t : triple) : Z :=
  let '(s, _, _) := t in s - (if inv then diff else 0).

Definition old_of (inv : bool) (t : triple) : Z :=
  let '(_, o, n) := t in if inv then n else o.

Definition new_of (inv : bool) (t : triple) : Z :=
  let '(_, o, n) := t in if inv then o else n.

(** Net size change of the ranges of [pre], read in direction [inv]. *)
Definition diff_of (inv : bool) (pre : list triple) (diff : Z) : Z :=
  fold_left (fun d t => d + (new_of inv t - old_of inv t)) pre diff.

(** The scan goes past every range of [pre]: each starts at or before
    [pos] and ends strictly before it. *)
Fixpoint passes (inv : bool) (pos : Z) (pre : list triple) (diff : Z) : Prop :=
  match pre with
  | [] => True
  | t :: pre' =>
    start_of inv diff t <= pos /\
    start_of inv diff t + old_of inv t < pos /\
    passes inv pos pre' (diff + (new_of inv t - old_of inv t))
  end.

(** Where the scan of [_map] stops: past the table or before a later
    range ([Miss]), or inside range number [k] ([Hit]). *)
Inductive outcome : Set :=
| Miss (diff : Z)
| Hit (k : nat) (t : triple) (diff : Z).

Fixpoint locate (inv : bool) (pos : Z) (k : nat) (ts : list triple)
    (diff : Z) : outcome :=
  match ts with
  | [] => Miss diff
  | t :: ts' =>
    if start_of inv diff t >? pos then Miss diff
    else if pos <=? start_of inv diff t + old_of inv t then Hit k t diff
    else locate inv pos (S k) ts' (diff + (new_of inv t - old_of inv t))
  end.

(** The spec's side rule and result position for a position inside a
    range. *)
Definition side_of (pos assoc start old_size : Z) : Z :=
  if old_size =? 0 then assoc
  else if pos =? start then -1
  else if pos =? start + old_size then 1
  else assoc.

Definition hit_pos (inv : bool) (pos assoc : Z) (t : triple) (diff : Z) : Z :=
  let start := start_of inv diff t in
  start + diff +
  (if side_of pos assoc start (old_of inv t) <? 0 then 0 else new_of inv t).

(** The recovery token, the deletion flags and the whole answer of [_map]
    for each outcome of the scan. *)
Definition hit_recover (inv : bool) (pos assoc : Z) (k : nat) (t : triple)
    (diff : Z) : option Z :=
  let start := start_of inv diff t in
  if pos =? (if assoc <? 0 then start else start + old_of inv t) then None
  else Some (make_recover (Z.of_nat k) (pos - start)).

Definition hit_del (inv : bool) (pos assoc : Z) (t : triple) (diff : Z) : Z :=
  let start := start_of inv diff t in
  let end_ := start + old_of inv t in
  let d := if pos =? start then DEL_AFTER
           else if pos =? end_ then DEL_BEFORE else DEL_ACROSS in
  if (if assoc <? 0 then negb (pos =? start) else negb (pos =? end_))
  then Z.lor d DEL_SIDE else d.

Definition answer (inv : bool) (pos assoc : Z) (simple : bool) (o : outcome)
    : res (StepMap.ret simple) :=
  match o with
  | Miss diff => StepMap._map_end pos diff simple
  | Hit k t diff =>
    match simple return res (StepMap.ret simple) with
    | true => Ok (hit_pos inv pos assoc t diff)
    | false =>
      Ok (MapResult.mk (hit_pos inv pos assoc t diff)
            (hit_del inv pos assoc t diff)
            (hit_recover inv pos assoc k t diff))
    end
  end.

(** The position [_map] returns for each outcome of the scan. *)
Definition value_of (inv : bool) (pos assoc : Z) (o : outcome) : Z :=
  match o with
  | Miss diff => pos + diff
  | Hit _ t diff => hit_pos inv pos assoc t diff
  end.

(** Ranges sorted by start, not overlapping, with sizes that are sizes. *)
Fixpoint sorted_from (lo : Z) (ts : list triple) : Prop :=
  match ts with
  | [] => True
  | (s, o, n) :: ts' => lo <= s /\ 0 <= o /\ 0 <= n /\ sorted_from (s + o) ts'
  end.

Definition well_formed (ts : list triple) : Prop :=
  match ts with
  | [] => True
  | (s, _, _) :: _ => sorted_from s ts
  end.

(** Ranges sorted by start with a gap between one range and the next. *)
Fixpoint separated_from (lo : Z) (ts : list triple) : Prop :=
  match ts with
  | [] => True
  | (s, o, n) :: ts' =>
    lo < s /\ 0 <= o /\ 0 <= n /\ separated_from (s + o) ts'
  end.

Definition separated (ts : list triple) : Prop :=
  match ts with
  | [] => True
  | (s, _, _) :: _ => separated_from (s - 1) ts
  end.

(** Sum of [newSize - oldSize] over the first [index] ranges of a flat
    table. *)
Fixpoint sum_before (ranges : list Z) (index : nat) : Z :=
  match index with
  | O => 0
  | S k => sum_before ranges k
           + (nth (3 * k + 2) ranges 0 - nth (3 * k + 1) ranges 0)
  end.

(** ** Mirror tables as lists of pairs

    [set_mirror] stores a pair as two consecutive entries; [flatp] lays a
    list of pairs out as the flat list the code stores, and [partner] is
    the lookup on pairs: the other half of the first pair that holds [n]. *)

Definition flatp (ps : list (Z * Z)) : list Z :=
  flat_map (fun p : Z * Z => [fst p; snd p]) ps.

Fixpoint partner (ps : list (Z * Z)) (n : Z) : option Z :=
  match ps with
  | [] => None
  | (a, b) :: ps' =>
    if a =? n then Some b
    else if b =? n then Some a
    else partner ps' n
  end.

(** The mirror table of [self] holds the pairs [ps]; a missing table holds
    none. *)
Definition mirror_pairs (self : Mapping.t) (ps : list (Z * Z)) : Prop :=
  match Mapping.mirror self with
  | Some l => l = flatp ps
  | None => ps = []
  end.

(** The pair that [append_mapping_inverted] registers for map number [i]
    of its argument: none unless [i] has a partner after it; [N] is the
    length of the receiver at the end and [total] the [total_size] of the
    code. *)
Definition inverted_pair (ps : list (Z * Z)) (N total : Z) (i : nat)
    : list (Z * Z) :=
  match partner ps (Z.of_nat i) with
  | Some mi =>
    if mi >? Z.of_nat i then [(N - 1 - Z.of_nat i, total - mi - 1)] else []
  | None => []
  end.

(** A step map whose table is a well-formed list of triples. *)
Definition wf_step (m : StepMap.t) : Prop :=
  exists ts, StepMap.ranges m = flat ts /\ well_formed ts.

(** One step of a chain without mirror links: the position and the
    deletion flags after the map [m]. *)
Definition chain_step (assoc : Z) (acc : res (Z * Z)) (m : StepMap.t)
    : res (Z * Z) :=
  s <- acc ;;
  r <- StepMap.map_result m (fst s) assoc ;;
  Ok (MapResult.pos r, Z.lor (snd s) (MapResult.del_info r)).

(** * Properties *)

(** ** Lists and ranges *)

Section Lists.

Context {A : Type}.

Lemma getitem_of_nat (l : list A) (k : nat) :
  getitem l (Z.of_nat k) =
  match nth_error l k with Some x => Ok x | None => Raise IndexError end.
Proof.
  unfold getitem.
  destruct (Z.ltb_spec (Z.of_nat k) 0) as [H | H]; [lia |].
  destruct (Z.ltb_spec (Z.of_nat k) 0); [lia |].
  now rewrite Nat2Z.id.
Qed.

Lemma getitem_len (l : list A) : getitem l (len l) = Raise IndexError.
Proof.
  unfold len. rewrite getitem_of_nat.
  now rewrite (proj2 (nth_error_None l (length l)) (le_n _)).
Qed.

Lemma getitem_nth (l : list A) (i : Z) (d : A) :
  0 <= i < len l -> getitem l i = Ok (nth (Z.to_nat i) l d).
Proof.
  unfold len. intros H.
  rewrite <- (Z2Nat.id i) at 1 by lia. rewrite getitem_of_nat.
  destruct (nth_error l (Z.to_nat i)) eqn:E.
  - now rewrite (nth_error_nth _ _ d E).
  - apply nth_error_None in E. lia.
Qed.

End Lists.

Lemma py_range_nil (start stop step : Z) :
  0 < step -> stop <= start -> py_range start stop step = [].
Proof.
  intros Hs Hle. unfold py_range.
  replace (Z.to_nat ((stop - start + step - 1) / step)) with O; [reflexivity |].
  assert ((stop - start + step - 1) / step <= 0); [| lia].
  apply Z.lt_succ_r. apply Z.div_lt_upper_bound; lia.
Qed.

Lemma py_range_unit (start stop : Z) :
  py_range start stop 1 =
  List.map (fun k => start + Z.of_nat k) (seq 0 (Z.to_nat (stop - start))).
Proof.
  unfold py_range. rewrite Z.div_1_r.
  replace (stop - start + 1 - 1) with (stop - start) by lia.
  apply map_ext. intros. lia.
Qed.

Lemma py_range_cons (start stop : Z) :
  start < stop ->
  py_range start stop 1 = start :: py_range (start + 1) stop 1.
Proof.
  intros H. rewrite !py_range_unit.
  replace (Z.to_nat (stop - start)) with (S (Z.to_nat (stop - (start + 1))))
    by lia.
  cbn [seq List.map]. f_equal; [lia |].
  rewrite <- seq_shift, map_map. apply map_ext. intros. lia.
Qed.

Lemma flat_length (ts : list triple) : length (flat ts) = (3 * length ts)%nat.
Proof.
  induction ts as [| [[s o] n] ts IH]; [reflexivity |].
  cbn [flat flat_map app length] in *. unfold flat in IH. lia.
Qed.

Lemma flat_app (pre ts : list triple) : flat (pre ++ ts) = flat pre ++ flat ts.
Proof. apply flat_map_app. Qed.

Lemma py_range_flat (ts : list triple) :
  py_range 0 (len (flat ts)) 3 =
  List.map (fun k => Z.of_nat k * 3) (seq 0 (length ts)).
Proof.
  unfold py_range, len. rewrite flat_length.
  replace (Z.to_nat ((Z.of_nat (3 * length ts) - 0 + 3 - 1) / 3))
    with (length ts).
  - apply map_ext. intros. lia.
  - replace (Z.of_nat (3 * length ts) - 0 + 3 - 1)
      with (2 + Z.of_nat (length ts) * 3) by lia.
    rewrite Z.div_add by lia. change (2 / 3) with 0. lia.
Qed.

(** The three entries of range number [length pre] of a flat table. *)
Lemma getitem_flat (pre : list triple) (s o n : Z) (post : list triple) :
  let l := flat (pre ++ (s, o, n) :: post) in
  let i := Z.of_nat (length pre) * 3 in
  getitem l i = Ok s /\ getitem l (i + 1) = Ok o /\ getitem l (i + 2) = Ok n.
Proof.
  cbv zeta. rewrite flat_app. cbn [flat flat_map app].
  fold (flat post). fold (flat pre).
  replace (Z.of_nat (length pre) * 3) with (Z.of_nat (length (flat pre)))
    by (rewrite flat_length; lia).
  replace (Z.of_nat (length (flat pre)) + 1)
    with (Z.of_nat (length (flat pre) + 1)) by lia.
  replace (Z.of_nat (length (flat pre)) + 2)
    with (Z.of_nat (length (flat pre) + 2)) by lia.
  rewrite !getitem_of_nat.
  rewrite !nth_error_app2 by lia.
  replace (length (flat pre) - length (flat pre))%nat with 0%nat by lia.
  replace (length (flat pre) + 1 - length (flat pre))%nat with 1%nat by lia.
  replace (length (flat pre) + 2 - length (flat pre))%nat with 2%nat by lia.
  repeat split.
Qed.

(** ** The scan of [StepMap._map] on a table of triples *)

Lemma _map_loop_flat (self : StepMap.t) (pos assoc : Z) (simple : bool)
    (ts pre : list triple) (diff : Z) :
  StepMap.ranges self = flat (pre ++ ts) ->
  StepMap._map_loop self pos assoc simple
    (List.map (fun k => Z.of_nat k * 3) (seq (length pre) (length ts))) diff
  = answer (StepMap.inverted self) pos assoc simple
      (locate (StepMap.inverted self) pos (length pre) ts diff).
Proof.
  revert pre diff.
  induction ts as [| [[s o] n] ts IH]; intros pre diff Hr; [reflexivity |].
  cbn [length seq List.map StepMap._map_loop locate].
  pose proof (getitem_flat pre s o n ts) as Hg. cbv zeta in Hg.
  rewrite <- Hr in Hg. destruct Hg as (Hs & Ho & Hn).
  assert (Hold : getitem (StepMap.ranges self)
                   (Z.of_nat (length pre) * 3
                    + (if StepMap.inverted self then 2 else 1))
                 = Ok (old_of (StepMap.inverted self) (s, o, n)))
    by (destruct (StepMap.inverted self); assumption).
  assert (Hnew : getitem (StepMap.ranges self)
                   (Z.of_nat (length pre) * 3
                    + (if StepMap.inverted self then 1 else 2))
                 = Ok (new_of (StepMap.inverted self) (s, o, n)))
    by (destruct (StepMap.inverted self); assumption).
  rewrite Hs, Hold, Hnew. cbn [bind].
  change (s - (if StepMap.inverted self then diff else 0))
    with (start_of (StepMap.inverted self) diff (s, o, n)).
  destruct (start_of (StepMap.inverted self) diff (s, o, n) >? pos);
    [reflexivity |].
  destruct (pos <=? start_of (StepMap.inverted self) diff (s, o, n)
                    + old_of (StepMap.inverted self) (s, o, n)).
  - cbn [answer]. unfold hit_pos, hit_del, hit_recover, side_of.
    rewrite Z.div_mul by lia. reflexivity.
  - specialize (IH (pre ++ [(s, o, n)]) (diff + (new_of (StepMap.inverted self) (s, o, n) - old_of (StepMap.inverted self) (s, o, n)))).
    rewrite <- app_assoc in IH. cbn [app] in IH.
    rewrite length_app in IH. cbn [length] in IH.
    replace (length pre + 1)%nat with (S (length pre)) in IH by lia.
    apply IH, Hr.
Qed.

(** [_map] on a table of triples is the scan followed by the answer. *)
Lemma _map_flat (ts : list triple) (inv : bool) (pos assoc : Z)
    (simple : bool) :
  StepMap._map (StepMap.mk (flat ts) inv) pos assoc simple
  = answer inv pos assoc simple (locate inv pos 0 ts 0).
Proof.
  unfold StepMap._map. cbn [StepMap.ranges]. rewrite py_range_flat.
  apply (_map_loop_flat (StepMap.mk (flat ts) inv) pos assoc simple ts [] 0).
  reflexivity.
Qed.

(** The scan goes past a prefix it [passes]. *)
Lemma locate_passes (inv : bool) (pos : Z) (pre ts : list triple) :
  forall (k : nat) (diff : Z),
  passes inv pos pre diff ->
  locate inv pos k (pre ++ ts) diff
  = locate inv pos (k + length pre) ts (diff_of inv pre diff).
Proof.
  induction pre as [| t pre IH]; intros k diff Hp.
  - cbn. now rewrite Nat.add_0_r.
  - cbn [passes] in Hp. destruct Hp as (H1 & H2 & H3).
    cbn [app locate length diff_of fold_left].
    destruct (Z.gtb_spec (start_of inv diff t) pos); [lia |].
    destruct (Z.leb_spec pos (start_of inv diff t + old_of inv t)); [lia |].
    rewrite IH by assumption. f_equal. lia.
Qed.

(** ** Recovery tokens *)

Lemma lower16_ones : lower16 = Z.ones 16.
Proof. reflexivity. Qed.

Lemma recover_index_mod (value : Z) : recover_index value = value mod factor16.
Proof. unfold recover_index. rewrite lower16_ones. apply Z.land_ones. lia. Qed.

Lemma recover_offset_div (value : Z) : recover_offset value = value / factor16.
Proof.
  unfold recover_offset. fold (recover_index value). rewrite recover_index_mod.
  assert (Hf : factor16 <> 0) by (unfold factor16; lia).
  rewrite (Z.div_mod value factor16 Hf) at 1.
  replace (factor16 * (value / factor16) + value mod factor16
           - value mod factor16)
    with (value / factor16 * factor16) by lia.
  now apply Z.div_mul.
Qed.

(** C9, as amended: [make_recover] takes every index and offset and checks
    nothing; the token gives back the index and the offset it was made from
    whenever the index is below [2**16] and the offset below [2**37], which
    keeps the token below [2**53], where the float arithmetic of the source
    is the exact one used here. *)
Theorem recover_make_recover (index offset : Z) :
  0 <= index < factor16 ->
  0 <= offset < 2 ^ 37 ->
  recover_index (make_recover index offset) = index /\
  recover_offset (make_recover index offset) = offset.
Proof.
  intros H _. rewrite recover_index_mod, recover_offset_div.
  unfold make_recover.
  assert (Hf : factor16 <> 0) by (unfold factor16; lia).
  split.
  - rewrite Z.mod_add by assumption. now apply Z.mod_small.
  - rewrite Z.div_add by assumption. rewrite Z.div_small by assumption. lia.
Qed.

Lemma recover_make_recover_witness :
  recover_index (make_recover 3 7) = 3 /\
  recover_offset (make_recover 3 7) = 7.
Proof. apply (recover_make_recover 3 7); unfold factor16; lia. Defined.

(** C9, as stated, fails: the index [2**16] is taken without an error and
    the token reads back as index [0] with the offset one too large. *)
Lemma make_recover_truncates :
  make_recover 65536 0 = 65536 /\
  recover_index (make_recover 65536 0) <> 65536 /\
  recover_offset (make_recover 65536 0) <> 0.
Proof. repeat split; vm_compute; discriminate. Qed.

(** ** Concrete scenarios *)

(** C1: position 4, deleted by map A, is recovered through its mirror B and
    maps to 4 under both associativities, whichever way the pair was
    registered. *)
Theorem mirror_recovery_scenario :
  let A := StepMap.mk [2; 4; 0] false in
  let B := StepMap.mk [2; 0; 4] false in
  let two :=
    Mapping.append_map (Mapping.init None None None None) A None in
  let chain := Mapping.append_map two B (Some 0) in
  let chain' :=
    Mapping.set_mirror (Mapping.append_map two B None) 0 1 in
  (fmap MapResult.recover (StepMap.map_result A 4 (-1))
     = Ok (Some (make_recover 0 2)) /\
   fmap MapResult.recover (StepMap.map_result A 4 1)
     = Ok (Some (make_recover 0 2)) /\
   StepMap.recover B (make_recover 0 2) = Ok 4) /\
  (Mapping.map chain 4 (-1) = Ok 4 /\ Mapping.map chain 4 1 = Ok 4 /\
   Mapping.map_result chain 4 (-1) = Ok (MapResult.mk 4 0 None) /\
   Mapping.map_result chain 4 1 = Ok (MapResult.mk 4 0 None)) /\
  (Mapping.map chain' 4 (-1) = Ok 4 /\ Mapping.map chain' 4 1 = Ok 4 /\
   Mapping.map_result chain' 4 (-1) = Ok (MapResult.mk 4 0 None) /\
   Mapping.map_result chain' 4 1 = Ok (MapResult.mk 4 0 None)).
Proof. cbv zeta. repeat split; vm_compute; reflexivity. Qed.

(** C4, as amended: the start boundary of the non-empty range [5, 2, 4]
    maps to 5 under both associativities. *)
Theorem start_boundary_scenario :
  StepMap.map (StepMap.mk [5; 2; 4] false) 5 (-1) = Ok 5 /\
  StepMap.map (StepMap.mk [5; 2; 4] false) 5 1 = Ok 5.
Proof. split; vm_compute; reflexivity. Qed.

(** C4, as stated, fails: [map(5, +1)] is not 9. *)
Lemma start_boundary_not_sensitive :
  ~ (StepMap.map (StepMap.mk [5; 2; 4] false) 5 (-1) = Ok 5 /\
     StepMap.map (StepMap.mk [5; 2; 4] false) 5 1 = Ok 9).
Proof. intros [_ H]. vm_compute in H. discriminate. Qed.

(** ** Identity *)

(** C8: an empty StepMap and a Mapping without maps leave every position
    where it is, with no deletion flag and no recovery token. *)
Theorem identity_mapping (p assoc : Z) (inv : bool)
    (mirror : option (list Z)) :
  (StepMap.map (StepMap.mk [] inv) p assoc = Ok p /\
   StepMap.map_result (StepMap.mk [] inv) p assoc
     = Ok (MapResult.mk p 0 None)) /\
  (StepMap.map StepMap.empty p assoc = Ok p /\
   StepMap.map_result StepMap.empty p assoc = Ok (MapResult.mk p 0 None)) /\
  (Mapping.map (Mapping.init None mirror None None) p assoc = Ok p /\
   Mapping.map_result (Mapping.init None mirror None None) p assoc
     = Ok (MapResult.mk p 0 None)) /\
  (Mapping.map (Mapping.init (Some []) mirror None None) p assoc = Ok p /\
   Mapping.map_result (Mapping.init (Some []) mirror None None) p assoc
     = Ok (MapResult.mk p 0 None)).
Proof.
  assert (Hs : forall i, StepMap.map (StepMap.mk [] i) p assoc = Ok p /\
                 StepMap.map_result (StepMap.mk [] i) p assoc
                 = Ok (MapResult.mk p 0 None)).
  { intros i. unfold StepMap.map, StepMap.map_result, StepMap._map.
    cbn. now rewrite Z.add_0_r. }
  repeat split; try apply Hs;
    destruct mirror as [[| x l] |]; reflexivity.
Qed.

(** ** [touches] *)

(** The loop of [touches] runs over [range(len(self.ranges), 3)]: on a
    table of three entries or more it has no iteration, on a shorter one
    its first subscript is out of range. *)
Lemma touches_outcome (self : StepMap.t) (pos token : Z) :
  (3 <= len (StepMap.ranges self) ->
   StepMap.touches self pos token = Ok false) /\
  (len (StepMap.ranges self) < 3 ->
   StepMap.touches self pos token = Raise IndexError).
Proof.
  destruct self as [ranges inv]. unfold StepMap.touches.
  cbn [StepMap.ranges]. split; intros H.
  - now rewrite py_range_nil by lia.
  - destruct ranges as [| a [| b [| c l]]]; try reflexivity.
    unfold len in H. cbn [length] in H. lia.
Qed.

Lemma touches_never_true (self : StepMap.t) (pos token : Z) :
  StepMap.touches self pos token <> Ok true.
Proof.
  destruct (touches_outcome self pos token) as [H1 H2].
  destruct (Z_lt_le_dec (len (StepMap.ranges self)) 3) as [H | H].
  - rewrite H2 by assumption. discriminate.
  - rewrite H1 by assumption. discriminate.
Qed.

(** C2 at its failing input: position 4 lies inside range 0 of the table
    [2, 4, 0], [map_result] hands out a token for that range, and [touches]
    answers [False] for the position and the token. *)
Theorem touches_misses_range :
  let m := StepMap.mk [2; 4; 0] false in
  StepMap.map_result m 4 1
    = Ok (MapResult.mk 2 (Z.lor DEL_ACROSS DEL_SIDE) (Some 131072)) /\
  recover_index 131072 = 0 /\
  2 <= 4 <= 2 + 4 /\
  StepMap.touches m 4 131072 = Ok false.
Proof. cbv zeta. repeat split; vm_compute; try reflexivity; discriminate. Qed.

(** ** [append_mapping] *)

Lemma getitem_exn {A : Type} (l : list A) (i : Z) (e : exn) :
  getitem l i = Raise e -> e = IndexError.
Proof.
  unfold getitem.
  destruct (_ <? 0); [congruence |].
  destruct (nth_error _ _); congruence.
Qed.

Lemma get_mirror_loop_exn (l : list Z) (n : Z) (idx : list Z) (e : exn) :
  Mapping.get_mirror_loop l n idx = Raise e -> e = IndexError.
Proof.
  induction idx as [| i idx IH]; cbn [Mapping.get_mirror_loop];
    [discriminate |].
  destruct (getitem l i) as [x | e1] eqn:E1; cbn [bind].
  - destruct (x =? n); [| exact IH].
    destruct (getitem l (i + _)) as [y | e2] eqn:E2; cbn [bind];
      [discriminate |].
    intros H. injection H as <-. exact (getitem_exn _ _ _ E2).
  - intros H. injection H as <-. exact (getitem_exn _ _ _ E1).
Qed.

Lemma get_mirror_exn (self : Mapping.t) (n : Z) (e : exn) :
  Mapping.get_mirror self n = Raise e -> e = IndexError.
Proof.
  unfold Mapping.get_mirror.
  destruct (Mapping.truthy _); [| discriminate].
  destruct (Mapping.mirror self); [apply get_mirror_loop_exn | discriminate].
Qed.

(** Each iteration of [append_mapping] reads [mapping.maps[i]] after
    [i += 1]: the last one reads past the end of the list. *)
Lemma append_mapping_loop_raises (mapping : Mapping.t) (start_size : Z) :
  forall (fuel : nat) (self : Mapping.t) (i : Z),
  0 <= i < len (Mapping.maps mapping) ->
  (Z.to_nat (len (Mapping.maps mapping) - i) <= fuel)%nat ->
  Mapping.append_mapping_loop fuel self mapping i start_size
  = Raise IndexError.
Proof.
  induction fuel as [| fuel IH]; intros self i Hi Hf; [lia |].
  cbn [Mapping.append_mapping_loop].
  destruct (Z.ltb_spec i (len (Mapping.maps mapping))); [| lia].
  destruct (Mapping.get_mirror mapping i) as [mirr | e] eqn:Em; cbn [bind].
  - destruct (Z.eq_dec (i + 1) (len (Mapping.maps mapping))) as [Hl | Hl].
    + rewrite Hl, getitem_len. reflexivity.
    + rewrite (getitem_nth _ _ StepMap.empty) by lia. cbn [bind].
      apply IH; lia.
  - now rewrite (get_mirror_exn _ _ _ Em).
Qed.

Lemma append_mapping_raises (self mapping : Mapping.t) :
  Mapping.maps mapping <> [] ->
  Mapping.append_mapping self mapping = Raise IndexError.
Proof.
  intros H. unfold Mapping.append_mapping.
  apply append_mapping_loop_raises.
  - unfold len. destruct (Mapping.maps mapping); [congruence | cbn; lia].
  - unfold len. lia.
Qed.

Lemma append_mapping_nil (self mapping : Mapping.t) :
  Mapping.maps mapping = [] ->
  Mapping.append_mapping self mapping = Ok self.
Proof.
  intros H. unfold Mapping.append_mapping. rewrite H.
  cbn [length Mapping.append_mapping_loop]. now rewrite H.
Qed.

(** C3 at its failing input: mapping 10 through one chain and then the
    other gives 13, and appending the second chain to the first raises
    [IndexError] instead of building the combined chain. *)
Theorem append_mapping_scenario :
  let chainA :=
    Mapping.init (Some [StepMap.mk [0; 0; 1] false]) None None None in
  let chainB :=
    Mapping.init (Some [StepMap.mk [5; 2; 4] false]) None None None in
  (x <- Mapping.map chainA 10 1 ;; Mapping.map chainB x 1) = Ok 13 /\
  Mapping.append_mapping chainA chainB = Raise IndexError.
Proof. cbv zeta. split; vm_compute; reflexivity. Qed.

(** ** [recover] *)

Lemma recover_index_nonneg (value : Z) : 0 <= recover_index value.
Proof.
  rewrite recover_index_mod. apply Z.mod_pos_bound. unfold factor16. lia.
Qed.

Lemma recover_diff_sum (ranges : list Z) (inv : bool) (n : nat) :
  Z.of_nat n * 3 <= len ranges ->
  StepMap.recover_diff (StepMap.mk ranges inv) (Z.of_nat n)
  = Ok (sum_before ranges n).
Proof.
  unfold StepMap.recover_diff. rewrite py_range_unit.
  replace (Z.to_nat (Z.of_nat n - 0)) with n by lia.
  cbn [StepMap.ranges].
  induction n as [| n IH]; intros H; [reflexivity |].
  rewrite seq_S, map_app, fold_left_app. cbn [List.map fold_left Nat.add].
  rewrite IH by lia. cbn [bind sum_before].
  rewrite (getitem_nth ranges _ 0) by lia.
  rewrite (getitem_nth ranges _ 0) by lia. cbn [bind].
  replace (Z.to_nat ((0 + Z.of_nat n) * 3 + 2)) with (3 * n + 2)%nat by lia.
  replace (Z.to_nat ((0 + Z.of_nat n) * 3 + 1)) with (3 * n + 1)%nat by lia.
  reflexivity.
Qed.

(** C6: for a token whose index names a range of the table, [recover]
    returns that range's start plus the offset of the token, plus, for a
    map that is not inverted, the sum of [newSize - oldSize] over the
    ranges before the index; an inverted map adds no such sum. *)
Theorem recover_formula (ranges : list Z) (inv : bool) (value : Z) :
  let index := recover_index value in
  let offset := recover_offset value in
  let diff := if inv then 0 else sum_before ranges (Z.to_nat index) in
  index * 3 < len ranges ->
  StepMap.recover (StepMap.mk ranges inv) value
  = Ok (nth (Z.to_nat (index * 3)) ranges 0 + diff + offset).
Proof.
  cbv zeta. intros H. pose proof (recover_index_nonneg value) as Hn.
  unfold StepMap.recover. cbn [StepMap.inverted StepMap.ranges].
  rewrite (getitem_nth ranges _ 0) by lia.
  destruct inv; cbn [negb bind]; [reflexivity |].
  rewrite <- (Z2Nat.id (recover_index value)) at 1 by assumption.
  rewrite recover_diff_sum by lia. reflexivity.
Qed.

Lemma recover_formula_witness :
  StepMap.recover (StepMap.mk [2; 4; 0; 8; 1; 3] false) (make_recover 1 2)
  = Ok (8 + (0 - 4) + 2).
Proof.
  apply (recover_formula [2; 4; 0; 8; 1; 3] false (make_recover 1 2)).
  vm_compute. reflexivity.
Defined.

(** ** Positions inside a range *)

(** C5: when the scan reaches a range and the position lies within
    [start, start + oldSize], [map] returns
    [start + diff + (0 if side < 0 else newSize)] with the side of the
    spec's rule; so the end boundary of a range that is not empty maps to
    [start + diff + newSize] whatever the associativity. *)
Theorem map_inside_range (inv : bool) (pre : list triple) (t : triple)
    (post : list triple) (pos assoc : Z) :
  let diff := diff_of inv pre 0 in
  let start := start_of inv diff t in
  let old_size := old_of inv t in
  let new_size := new_of inv t in
  let side := side_of pos assoc start old_size in
  let m := StepMap.mk (flat (pre ++ t :: post)) inv in
  passes inv pos pre 0 ->
  start <= pos <= start + old_size ->
  StepMap.map m pos assoc
    = Ok (start + diff + (if side <? 0 then 0 else new_size)) /\
  (old_size <> 0 -> pos = start + old_size ->
   StepMap.map m pos assoc = Ok (start + diff + new_size)).
Proof.
  cbv zeta. intros Hp Hin.
  assert (Hm : StepMap.map (StepMap.mk (flat (pre ++ t :: post)) inv)
                 pos assoc
               = Ok (hit_pos inv pos assoc t (diff_of inv pre 0))).
  { unfold StepMap.map. rewrite _map_flat, locate_passes by assumption.
    cbn [locate].
    destruct (Z.gtb_spec (start_of inv (diff_of inv pre 0) t) pos); [lia |].
    destruct (Z.leb_spec pos (start_of inv (diff_of inv pre 0) t
                              + old_of inv t)); [| lia].
    reflexivity. }
  split; [exact Hm |].
  intros Hold Hend. rewrite Hm. unfold hit_pos, side_of.
  destruct (Z.eqb_spec (old_of inv t) 0); [contradiction |].
  destruct (Z.eqb_spec pos (start_of inv (diff_of inv pre 0) t)); [lia |].
  destruct (Z.eqb_spec pos (start_of inv (diff_of inv pre 0) t
                            + old_of inv t)); [| contradiction].
  reflexivity.
Qed.

Lemma map_inside_range_witness :
  StepMap.map (StepMap.mk (flat ([(1, 1, 0)] ++ (5, 2, 4) :: [(9, 0, 1)])) false)
    7 (-1)
    = Ok (5 + -1 + 4) /\
  (2 <> 0 -> 7 = 5 + 2 ->
   StepMap.map (StepMap.mk (flat ([(1, 1, 0)] ++ (5, 2, 4) :: [(9, 0, 1)])) false)
     7 (-1)
   = Ok (5 + -1 + 4)).
Proof.
  apply (map_inside_range false [(1, 1, 0)] (5, 2, 4) [(9, 0, 1)] 7 (-1)).
  - simpl. lia.
  - simpl. lia.
Defined.

(** ** The integer path and the metadata path *)

Lemma step_map_loop_pos (self : StepMap.t) (pos assoc : Z) (idx : list Z) :
  forall diff : Z,
  StepMap._map_loop self pos assoc true idx diff
  = fmap MapResult.pos (StepMap._map_loop self pos assoc false idx diff).
Proof.
  induction idx as [| i idx IH]; intros diff; [reflexivity |].
  cbn [StepMap._map_loop].
  destruct (getitem (StepMap.ranges self) i) as [r | e];
    cbn [bind fmap]; [| reflexivity].
  destruct (_ >? pos); [reflexivity |].
  destruct (getitem (StepMap.ranges self) (i + _)) as [old_size | e];
    cbn [bind fmap]; [| reflexivity].
  destruct (getitem (StepMap.ranges self) (i + _)) as [new_size | e];
    cbn [bind fmap]; [| reflexivity].
  destruct (pos <=? _); [reflexivity |].
  apply IH.
Qed.

Lemma step_map_pos (m : StepMap.t) (pos assoc : Z) :
  StepMap.map m pos assoc
  = fmap MapResult.pos (StepMap.map_result m pos assoc).
Proof. apply step_map_loop_pos. Qed.

Lemma fold_left_raise {A B : Type} (f : res A -> B -> res A) (l : list B)
    (e : exn) :
  (forall b, f (Raise e) b = Raise e) ->
  fold_left f l (Raise e) = Raise e.
Proof.
  intros Hf. induction l as [| b l IH]; [reflexivity |].
  cbn [fold_left]. now rewrite Hf.
Qed.

Lemma get_mirror_falsy (self : Mapping.t) (n : Z) :
  Mapping.truthy (Mapping.mirror self) = false ->
  Mapping.get_mirror self n = Ok None.
Proof. intros H. unfold Mapping.get_mirror. now rewrite H. Qed.

(** Without mirror links the [while] loop of [Mapping._map] visits the maps
    one by one, as the [for] loop of [Mapping.map] does. *)
Lemma mapping_loop_fold (self : Mapping.t) (assoc : Z) :
  Mapping.truthy (Mapping.mirror self) = false ->
  forall (fuel : nat) (i pos del_info : Z),
  (Z.to_nat (Mapping.to self - i) <= fuel)%nat ->
  fmap fst (Mapping._map_loop fuel self assoc i pos del_info)
  = fold_left
      (fun acc i =>
         pos <- acc ;;
         m <- getitem (Mapping.maps self) i ;;
         StepMap.map m pos assoc)
      (py_range i (Mapping.to self) 1) (Ok pos).
Proof.
  intros Hm.
  induction fuel as [| fuel IH]; intros i pos del_info Hf.
  - cbn [Mapping._map_loop].
    destruct (Z.ltb_spec i (Mapping.to self)); [lia |].
    now rewrite py_range_nil by lia.
  - cbn [Mapping._map_loop].
    destruct (Z.ltb_spec i (Mapping.to self)) as [Hlt | Hge].
    + rewrite py_range_cons by assumption. cbn [fold_left bind].
      rewrite (get_mirror_falsy self i Hm). cbn [bind].
      destruct (getitem (Mapping.maps self) i) as [m | e]; cbn [bind fmap].
      * rewrite step_map_pos.
        destruct (StepMap.map_result m pos assoc) as [result | e];
          cbn [bind fmap].
        -- fold (@fmap (Z * Z) Z fst).
           destruct (MapResult.recover result); apply IH; lia.
        -- symmetry. now apply fold_left_raise.
      * symmetry. now apply fold_left_raise.
    + now rewrite py_range_nil by lia.
Qed.

(** C10: [map] returns the position that [map_result] reports, for every
    StepMap and for every Mapping, with or without mirror links; when one
    raises so does the other. *)
Theorem map_agrees_with_map_result (pos assoc : Z) :
  (forall m : StepMap.t,
    StepMap.map m pos assoc
    = fmap MapResult.pos (StepMap.map_result m pos assoc)) /\
  (forall c : Mapping.t,
    Mapping.map c pos assoc
    = fmap MapResult.pos (Mapping.map_result c pos assoc)).
Proof.
  split; [intros m; apply step_map_pos |].
  intros c. unfold Mapping.map, Mapping.map_result, Mapping._map.
  destruct (Mapping.truthy (Mapping.mirror c)) eqn:Hm.
  - destruct (Mapping._map_loop _ _ _ _ _ _); reflexivity.
  - rewrite <- (mapping_loop_fold c assoc Hm
                  (Z.to_nat (Mapping.to c - Mapping.from_ c))
                  (Mapping.from_ c) pos 0) by lia.
    destruct (Mapping._map_loop _ _ _ _ _ _); reflexivity.
Qed.

(** ** Fuel

    [IndexError] is the only exception of the StepMap methods, and the fuel
    given to the [while] loop of [Mapping._map] is enough: the loop never
    stops for want of it. *)

Lemma getitem_fuel {A : Type} (l : list A) (i : Z) :
  getitem l i <> Raise OutOfFuel.
Proof. intros H. apply getitem_exn in H. discriminate. Qed.

(** Case analysis on the subscript the goal evaluates next; an
    [IndexError] closes the goal. *)
Ltac case_getitem :=
  match goal with
  | |- context [bind (getitem ?l ?i) _] =>
    let E := fresh "E" in
    destruct (getitem l i) eqn:E; cbn [bind];
    [| rewrite (getitem_exn _ _ _ E); discriminate]
  end.

Lemma step_map_loop_fuel (self : StepMap.t) (pos assoc : Z) (simple : bool)
    (idx : list Z) :
  forall diff : Z,
  StepMap._map_loop self pos assoc simple idx diff <> Raise OutOfFuel.
Proof.
  induction idx as [| i idx IH]; intros diff; cbn [StepMap._map_loop].
  - destruct simple; discriminate.
  - case_getitem.
    destruct (_ >? pos); [destruct simple; discriminate |].
    do 2 case_getitem.
    destruct (pos <=? _); [destruct simple; discriminate | apply IH].
Qed.

Lemma recover_fuel (self : StepMap.t) (value : Z) :
  StepMap.recover self value <> Raise OutOfFuel.
Proof.
  unfold StepMap.recover.
  assert (Hd : forall index,
             StepMap.recover_diff self index <> Raise OutOfFuel).
  { intros index. unfold StepMap.recover_diff.
    generalize (py_range 0 index 1). intros l.
    assert (Hacc : (Ok 0 : res Z) <> Raise OutOfFuel) by discriminate.
    revert Hacc. generalize (Ok 0 : res Z).
    induction l as [| i l IH]; intros acc Hacc; [exact Hacc |].
    cbn [fold_left]. apply IH.
    destruct acc as [diff | e]; cbn [bind]; [| exact Hacc].
    do 2 case_getitem. discriminate. }
  destruct (negb (StepMap.inverted self)).
  - specialize (Hd (recover_index value)).
    destruct (StepMap.recover_diff self (recover_index value)) as [d | e];
      cbn [bind]; [| exact Hd].
    case_getitem. discriminate.
  - cbn [bind]. case_getitem. discriminate.
Qed.

Lemma mapping_loop_fuel (self : Mapping.t) (assoc : Z) :
  forall (fuel : nat) (i pos del_info : Z),
  (Z.to_nat (Mapping.to self - i) <= fuel)%nat ->
  Mapping._map_loop fuel self assoc i pos del_info <> Raise OutOfFuel.
Proof.
  induction fuel as [| fuel IH]; intros i pos del_info Hf;
    cbn [Mapping._map_loop];
    destruct (Z.ltb_spec i (Mapping.to self)) as [Hlt | Hge];
    try discriminate; [lia |].
  destruct (getitem (Mapping.maps self) i) as [m | e] eqn:Eg; cbn [bind];
    [| rewrite (getitem_exn _ _ _ Eg); discriminate].
  pose proof (step_map_loop_fuel m pos assoc false
                (py_range 0 (len (StepMap.ranges m)) 3) 0) as Hr.
  fold (StepMap._map m pos assoc false) in Hr.
  fold (StepMap.map_result m pos assoc) in Hr.
  destruct (StepMap.map_result m pos assoc) as [result | e];
    cbn [bind];
    [| intros Hx; apply Hr; injection Hx as ->; reflexivity].
  assert (Hplain :
    Mapping._map_loop fuel self assoc (i + 1) (MapResult.pos result)
      (Z.lor del_info (MapResult.del_info result)) <> Raise OutOfFuel)
    by (apply IH; lia).
  destruct (MapResult.recover result) as [token |]; [| exact Hplain].
  destruct (Mapping.get_mirror self i) as [[corr |] | e] eqn:Em;
    cbn [bind]; try exact Hplain.
  - destruct (Z.gtb_spec corr i); cbn [andb]; [| exact Hplain].
    destruct (Z.ltb_spec corr (Mapping.to self)); [| exact Hplain].
    destruct (getitem (Mapping.maps self) corr) as [partner | e] eqn:Ep;
      cbn [bind]; [| rewrite (getitem_exn _ _ _ Ep); discriminate].
    pose proof (recover_fuel partner token) as Hc.
    destruct (StepMap.recover partner token) as [pos' | e];
      cbn [bind];
      [apply IH; lia | intros Hx; apply Hc; injection Hx as ->; reflexivity].
  - rewrite (get_mirror_exn _ _ _ Em). discriminate.
Qed.

Lemma mapping_map_fuel (self : Mapping.t) (pos assoc : Z) (simple : bool) :
  Mapping._map self pos assoc simple <> Raise OutOfFuel.
Proof.
  unfold Mapping._map.
  pose proof (mapping_loop_fuel self assoc
                (Z.to_nat (Mapping.to self - Mapping.from_ self))
                (Mapping.from_ self) pos 0 (le_n _)) as H.
  destruct (Mapping._map_loop _ _ _ _ _ _) as [r | e]; cbn [bind];
    [destruct simple; discriminate |].
  intros H'. apply H. injection H' as ->. reflexivity.
Qed.

(** ** Inversion round trip *)

Section RoundTrip.

Variable p : Z.

(** A position past a sorted table's lower bound stays past it after the
    forward scan. *)
Lemma locate_forward_bound (ts : list triple) :
  forall (b d D : Z) (k : nat),
  sorted_from b ts -> b < p ->
  locate false p k ts d = Miss D -> b + d < p + D.
Proof.
  induction ts as [| [[s o] n] ts IH]; intros b d D k Hs Hb Hl.
  - cbn in Hl. injection Hl as <-. lia.
  - cbn [sorted_from] in Hs. destruct Hs as (Hlo & Ho & Hn & Hs).
    cbn [locate start_of old_of new_of] in Hl.
    destruct (Z.gtb_spec (s - 0) p); [injection Hl as <-; lia |].
    destruct (Z.leb_spec p (s - 0 + o)); [discriminate |].
    specialize (IH (s + o) (d + (n - o)) D (S k) Hs ltac:(lia) Hl). lia.
Qed.

Lemma locate_inverted_bound (ts : list triple) :
  forall (c e E : Z) (k : nat),
  sorted_from c ts -> c - e < p ->
  locate true p k ts e = Miss E -> c < p + E.
Proof.
  induction ts as [| [[s o] n] ts IH]; intros c e E k Hs Hc Hl.
  - cbn in Hl. injection Hl as <-. lia.
  - cbn [sorted_from] in Hs. destruct Hs as (Hlo & Ho & Hn & Hs).
    cbn [locate start_of old_of new_of] in Hl.
    destruct (Z.gtb_spec (s - e) p); [injection Hl as <-; lia |].
    destruct (Z.leb_spec p (s - e + n)); [discriminate |].
    specialize (IH (s + o) (e + (o - n)) E (S k) Hs ltac:(lia) Hl). lia.
Qed.

(** A forward scan that misses every range is undone by the inverted
    scan, and the other way round. *)
Lemma locate_forward_back (ts : list triple) :
  forall (lo d D : Z) (k k' : nat),
  sorted_from lo ts ->
  locate false p k ts d = Miss D ->
  locate true (p + D) k' ts (- d) = Miss (- D).
Proof.
  induction ts as [| [[s o] n] ts IH]; intros lo d D k k' Hs Hl.
  - cbn in Hl. injection Hl as <-. reflexivity.
  - cbn [sorted_from] in Hs. destruct Hs as (Hlo & Ho & Hn & Hs).
    cbn [locate start_of old_of new_of] in Hl |- *.
    destruct (Z.gtb_spec (s - 0) p) as [Hgt | Hle].
    + injection Hl as <-.
      destruct (Z.gtb_spec (s - - d) (p + d)); [reflexivity | lia].
    + destruct (Z.leb_spec p (s - 0 + o)); [discriminate |].
      pose proof (locate_forward_bound ts (s + o) (d + (n - o)) D (S k)
                    Hs ltac:(lia) Hl) as Hb.
      destruct (Z.gtb_spec (s - - d) (p + D)); [lia |].
      destruct (Z.leb_spec (p + D) (s - - d + n)); [lia |].
      replace (- d + (o - n)) with (- (d + (n - o))) by lia.
      exact (IH (s + o) _ D (S k) (S k') Hs Hl).
Qed.

Lemma locate_inverted_back (ts : list triple) :
  forall (lo e E : Z) (k k' : nat),
  sorted_from lo ts ->
  locate true p k ts e = Miss E ->
  locate false (p + E) k' ts (- e) = Miss (- E).
Proof.
  induction ts as [| [[s o] n] ts IH]; intros lo e E k k' Hs Hl.
  - cbn in Hl. injection Hl as <-. reflexivity.
  - cbn [sorted_from] in Hs. destruct Hs as (Hlo & Ho & Hn & Hs).
    cbn [locate start_of old_of new_of] in Hl |- *.
    destruct (Z.gtb_spec (s - e) p) as [Hgt | Hle].
    + injection Hl as <-.
      destruct (Z.gtb_spec (s - 0) (p + e)); [reflexivity | lia].
    + destruct (Z.leb_spec p (s - e + n)); [discriminate |].
      pose proof (locate_inverted_bound ts (s + o) (e + (o - n)) E (S k)
                    Hs ltac:(lia) Hl) as Hb.
      destruct (Z.gtb_spec (s - 0) (p + E)); [lia |].
      destruct (Z.leb_spec (p + E) (s - 0 + o)); [lia |].
      replace (- e + (n - o)) with (- (e + (o - n))) by lia.
      exact (IH (s + o) _ E (S k) (S k') Hs Hl).
Qed.

Lemma locate_back (inv : bool) (ts : list triple) (D : Z) :
  well_formed ts ->
  locate inv p 0 ts 0 = Miss D ->
  locate (negb inv) (p + D) 0 ts 0 = Miss (- D).
Proof.
  intros Hw Hl.
  assert (Hs : exists lo, sorted_from lo ts).
  { destruct ts as [| [[s o] n] ts]; [exists 0; exact I | exists s; exact Hw]. }
  destruct Hs as [lo Hs].
  change (locate (negb inv) (p + D) 0 ts 0)
    with (locate (negb inv) (p + D) 0 ts (- 0)).
  destruct inv; cbn [negb].
  - exact (locate_inverted_back ts lo 0 D 0%nat 0%nat Hs Hl).
  - exact (locate_forward_back ts lo 0 D 0%nat 0%nat Hs Hl).
Qed.

End RoundTrip.

(** A position inside a range always carries a deletion flag. *)
Lemma hit_del_nonzero (inv : bool) (pos assoc : Z) (t : triple) (diff : Z) :
  hit_del inv pos assoc t diff <> 0.
Proof.
  unfold hit_del.
  destruct (assoc <? 0), (pos =? start_of inv diff t),
    (pos =? start_of inv diff t + old_of inv t); vm_compute; discriminate.
Qed.

(** C7: on a well-formed table, a position that [map_result] reports with
    no deletion flag is mapped back to itself by the inverted map under
    the opposite associativity. *)
Theorem invert_round_trip (ts : list triple) (inv : bool) (p a : Z)
    (r : MapResult.t) :
  let m := StepMap.mk (flat ts) inv in
  well_formed ts ->
  StepMap.map_result m p a = Ok r ->
  MapResult.del_info r = 0 ->
  (x <- StepMap.map m p a ;; StepMap.map (StepMap.invert m) x (- a)) = Ok p.
Proof.
  cbv zeta. intros Hw Hr Hd.
  unfold StepMap.map, StepMap.map_result, StepMap.invert in *.
  cbn [StepMap.ranges StepMap.inverted].
  rewrite _map_flat in Hr. rewrite _map_flat.
  destruct (locate inv p 0 ts 0) as [D | k t D] eqn:Hl.
  - cbn [answer StepMap._map_end bind].
    rewrite _map_flat, (locate_back p inv ts D Hw Hl).
    cbn [answer StepMap._map_end]. f_equal. lia.
  - cbn [answer] in Hr. injection Hr as <-. cbn [MapResult.del_info] in Hd.
    now apply hit_del_nonzero in Hd.
Qed.

Lemma invert_round_trip_witness :
  (x <- StepMap.map (StepMap.mk (flat [(2, 2, 0); (5, 2, 5)]) false) 10 1 ;;
   StepMap.map
     (StepMap.invert (StepMap.mk (flat [(2, 2, 0); (5, 2, 5)]) false)) x (- 1))
  = Ok 10.
Proof.
  apply (invert_round_trip [(2, 2, 0); (5, 2, 5)] false 10 1
           (MapResult.mk 11 0 None)).
  - simpl. lia.
  - vm_compute. reflexivity.
  - reflexivity.
Defined.

(** * Further properties of the code *)

(** ** [for_each] *)

Lemma for_each_loop_flat (self : StepMap.t) (ts : list triple) :
  forall (fuel : nat) (pre : list triple),
  StepMap.ranges self = flat (pre ++ ts) ->
  (length ts <= fuel)%nat ->
  StepMap.for_each_loop fuel self (Z.of_nat (length pre) * 3) 0
  = (List.map
       (fun t : triple =>
          let '(s, _, _) := t in
          (s, s + old_of (StepMap.inverted self) t,
           s, s + new_of (StepMap.inverted self) t)) ts,
     Ok tt).
Proof.
  induction ts as [| [[s o] n] ts IH]; intros fuel pre Hr Hf.
  - assert (Hend : (Z.of_nat (length pre) * 3 <? len (StepMap.ranges self))
                   = false).
    { apply Z.ltb_ge. rewrite Hr. unfold len.
      rewrite flat_length, app_nil_r. lia. }
    destruct fuel; cbn [StepMap.for_each_loop List.map]; now rewrite Hend.
  - destruct fuel as [| fuel]; [cbn [length] in Hf; lia |].
    cbn [StepMap.for_each_loop List.map].
    assert (Hlt : (Z.of_nat (length pre) * 3 <? len (StepMap.ranges self))
                  = true).
    { apply Z.ltb_lt. rewrite Hr. unfold len.
      rewrite flat_length, length_app. cbn [length]. lia. }
    rewrite Hlt.
    pose proof (getitem_flat pre s o n ts) as Hg. cbv zeta in Hg.
    rewrite <- Hr in Hg. destruct Hg as (Hs & Ho & Hn).
    rewrite Hs.
    replace (getitem (StepMap.ranges self)
               (Z.of_nat (length pre) * 3
                + (if StepMap.inverted self then 2 else 1)))
      with (Ok (A := Z) (old_of (StepMap.inverted self) (s, o, n)))
      by (destruct (StepMap.inverted self); symmetry; assumption).
    replace (getitem (StepMap.ranges self)
               (Z.of_nat (length pre) * 3
                + (if StepMap.inverted self then 1 else 2)))
      with (Ok (A := Z) (new_of (StepMap.inverted self) (s, o, n)))
      by (destruct (StepMap.inverted self); symmetry; assumption).
    specialize (IH fuel (pre ++ [(s, o, n)])).
    rewrite <- app_assoc, length_app in IH. cbn [app length] in IH.
    replace (Z.of_nat (length pre + 1) * 3)
      with (Z.of_nat (length pre) * 3 + 3) in IH by lia.
    rewrite IH by (assumption || (cbn [length] in Hf; lia)).
    f_equal. f_equal.
    destruct (StepMap.inverted self); now rewrite Z.sub_0_r, Z.add_0_r.
Qed.

(** X1: on a table of triples [for_each] calls [f] once per range, in
    storage order, and ends normally; [diff] is never updated in the loop,
    so both the old and the new start handed to [f] are the stored start
    of the range. *)
Theorem for_each_calls (ts : list triple) (inv : bool) :
  StepMap.for_each (StepMap.mk (flat ts) inv)
  = (List.map
       (fun t : triple =>
          let '(s, _, _) := t in
          (s, s + old_of inv t, s, s + new_of inv t)) ts,
     Ok tt).
Proof.
  unfold StepMap.for_each.
  apply (for_each_loop_flat (StepMap.mk (flat ts) inv) ts _ []).
  - reflexivity.
  - cbn [StepMap.ranges]. rewrite flat_length. lia.
Qed.

(** ** The metadata of [map_result] *)

Lemma step_map_loop_flags (self : StepMap.t) (pos assoc : Z) (idx : list Z) :
  forall (diff : Z) (r : MapResult.t),
  StepMap._map_loop self pos assoc false idx diff = Ok r ->
  (MapResult.deleted r = true <-> MapResult.recover r <> None) /\
  MapResult.deleted_across r
  = MapResult.deleted_before r && MapResult.deleted_after r.
Proof.
  assert (Hend : forall diff r,
             StepMap._map_end pos diff false = Ok r ->
             (MapResult.deleted r = true <-> MapResult.recover r <> None) /\
             MapResult.deleted_across r
             = MapResult.deleted_before r && MapResult.deleted_after r).
  { intros diff r H. injection H as <-. split; [| reflexivity].
    cbn. split; [discriminate | congruence]. }
  induction idx as [| i idx IH]; intros diff r; cbn [StepMap._map_loop];
    [apply Hend |].
  destruct (getitem (StepMap.ranges self) i) as [s | e]; cbn [bind];
    [| discriminate].
  destruct (_ >? pos); [apply Hend |].
  destruct (getitem (StepMap.ranges self) (i + _)) as [old_size | e];
    cbn [bind]; [| discriminate].
  destruct (getitem (StepMap.ranges self) (i + _)) as [new_size | e];
    cbn [bind]; [| discriminate].
  destruct (pos <=? _); [| apply IH].
  intros H. injection H as <-.
  unfold MapResult.deleted, MapResult.deleted_across,
    MapResult.deleted_before, MapResult.deleted_after.
  cbn [MapResult.del_info MapResult.recover].
  set (start := s - (if StepMap.inverted self then diff else 0)).
  set (end_ := start + old_size).
  destruct (assoc <? 0), (pos =? start), (pos =? end_);
    (split; [split; [discriminate || congruence | reflexivity || congruence]
            | reflexivity]).
Qed.

(** X2: a result of [StepMap.map_result] reports the position as deleted
    exactly when it carries a recovery token. *)
Theorem deleted_iff_recover (m : StepMap.t) (pos assoc : Z)
    (r : MapResult.t) :
  StepMap.map_result m pos assoc = Ok r ->
  (MapResult.deleted r = true <-> MapResult.recover r <> None).
Proof. intros H. now apply step_map_loop_flags in H. Qed.

Lemma deleted_iff_recover_witness :
  MapResult.deleted (MapResult.mk 2 12 (Some 131072)) = true <->
  MapResult.recover (MapResult.mk 2 12 (Some 131072)) <> None.
Proof.
  apply (deleted_iff_recover (StepMap.mk [2; 4; 0] false) 4 1).
  vm_compute. reflexivity.
Defined.

(** X3: in a result of [StepMap.map_result], [deleted_across] holds exactly
    when both [deleted_before] and [deleted_after] hold. *)
Theorem deleted_across_both (m : StepMap.t) (pos assoc : Z)
    (r : MapResult.t) :
  StepMap.map_result m pos assoc = Ok r ->
  MapResult.deleted_across r
  = MapResult.deleted_before r && MapResult.deleted_after r.
Proof. intros H. now apply step_map_loop_flags in H. Qed.

Lemma deleted_across_both_witness :
  MapResult.deleted_across (MapResult.mk 9 1 None)
  = MapResult.deleted_before (MapResult.mk 9 1 None)
    && MapResult.deleted_after (MapResult.mk 9 1 None).
Proof.
  apply (deleted_across_both (StepMap.mk [5; 2; 4] false) 7 1).
  vm_compute. reflexivity.
Defined.

(** ** Order and size conservation of [StepMap.map] *)

Lemma map_flat_value (ts : list triple) (inv : bool) (pos assoc : Z) :
  StepMap.map (StepMap.mk (flat ts) inv) pos assoc
  = Ok (value_of inv pos assoc (locate inv pos 0 ts 0)).
Proof.
  unfold StepMap.map. rewrite _map_flat.
  destruct (locate inv pos 0 ts 0); reflexivity.
Qed.

Lemma well_formed_sorted (ts : list triple) :
  well_formed ts -> exists lo, sorted_from lo ts.
Proof.
  destruct ts as [| [[s o] n] ts]; intros H; [exists 0; exact I |].
  exists s. exact H.
Qed.

(** Case analysis on every comparison of the goal, closed by arithmetic. *)
Ltac split_comparisons :=
  repeat match goal with
         | |- context [?x =? ?y] => destruct (Z.eqb_spec x y)
         end;
  cbv iota;
  repeat match goal with
         | |- context [?x <? ?y] => destruct (Z.ltb_spec x y)
         end;
  cbv iota; try lia.

(** The mapped position is never below the image of a lower bound of the
    table. *)
Lemma locate_lower_bound (inv : bool) (assoc q : Z) (ts : list triple) :
  forall (b d : Z) (k : nat),
  sorted_from b ts ->
  (if inv then b - d else b) <= q ->
  (if inv then b else b + d) <= value_of inv q assoc (locate inv q k ts d).
Proof.
  induction ts as [| [[s o] n] ts IH]; intros b d k Hs Hq.
  - cbn. destruct inv; lia.
  - cbn [sorted_from] in Hs. destruct Hs as (Hlo & Ho & Hn & Hs).
    cbn [locate].
    destruct (Z.gtb_spec (start_of inv d (s, o, n)) q) as [Hgt | Hle].
    + cbn. destruct inv; lia.
    + destruct (Z.leb_spec q (start_of inv d (s, o, n)
                              + old_of inv (s, o, n))) as [Hin | Hout].
      * cbn [value_of]. unfold hit_pos, side_of.
        destruct inv; cbn [start_of old_of new_of] in *; split_comparisons.
      * specialize (IH (s + o)
                      (d + (new_of inv (s, o, n) - old_of inv (s, o, n)))
                      (S k) Hs).
        destruct inv; cbn [start_of old_of new_of] in *; lia.
Qed.

Lemma locate_monotone (inv : bool) (assoc p q : Z) (ts : list triple) :
  p <= q ->
  forall (b d : Z) (k k' : nat),
  sorted_from b ts ->
  value_of inv p assoc (locate inv p k ts d)
  <= value_of inv q assoc (locate inv q k' ts d).
Proof.
  intros Hpq.
  induction ts as [| [[s o] n] ts IH]; intros b d k k' Hs.
  - cbn. lia.
  - cbn [sorted_from] in Hs. destruct Hs as (Hlo & Ho & Hn & Hs).
    pose proof (locate_lower_bound inv assoc q ts (s + o)
                  (d + (new_of inv (s, o, n) - old_of inv (s, o, n)))
                  (S k') Hs) as Hb.
    cbn [locate].
    destruct (Z.gtb_spec (start_of inv d (s, o, n)) p) as [Hp1 | Hp1];
      [| destruct (Z.leb_spec p (start_of inv d (s, o, n)
                                 + old_of inv (s, o, n))) as [Hp2 | Hp2]];
      (destruct (Z.gtb_spec (start_of inv d (s, o, n)) q) as [Hq1 | Hq1];
       [| destruct (Z.leb_spec q (start_of inv d (s, o, n)
                                  + old_of inv (s, o, n))) as [Hq2 | Hq2]]);
      try (exact (IH (s + o) _ (S k) (S k') Hs));
      cbn [value_of]; unfold hit_pos, side_of;
      destruct inv; cbn [start_of old_of new_of] in *; split_comparisons.
Qed.

(** X4: on a well-formed table [map] keeps the order of positions, in both
    directions and for every associativity. *)
Theorem map_monotone (ts : list triple) (inv : bool) (assoc p q : Z) :
  well_formed ts -> p <= q ->
  exists x y,
    StepMap.map (StepMap.mk (flat ts) inv) p assoc = Ok x /\
    StepMap.map (StepMap.mk (flat ts) inv) q assoc = Ok y /\
    x <= y.
Proof.
  intros Hw Hpq. destruct (well_formed_sorted ts Hw) as [lo Hs].
  exists (value_of inv p assoc (locate inv p 0 ts 0)),
         (value_of inv q assoc (locate inv q 0 ts 0)).
  repeat split; try apply map_flat_value.
  exact (locate_monotone inv assoc p q ts Hpq lo 0 0%nat 0%nat Hs).
Qed.

Lemma map_monotone_witness :
  exists x y,
    StepMap.map (StepMap.mk (flat [(2, 2, 0); (5, 2, 5)]) true) 3 1 = Ok x /\
    StepMap.map (StepMap.mk (flat [(2, 2, 0); (5, 2, 5)]) true) 6 1 = Ok y /\
    x <= y.
Proof.
  apply (map_monotone [(2, 2, 0); (5, 2, 5)] true 1 3 6).
  - simpl. lia.
  - lia.
Defined.

(** X5: a position that the scan carries past the ranges of [pre] and
    that lies before the next range, if there is one, hits no range: it is
    shifted by the net size change of [pre], with no deletion flag and no
    token.  With [pre] empty the position is unchanged. *)
Theorem map_outside_ranges (inv : bool) (pre post : list triple)
    (pos assoc : Z) :
  passes inv pos pre 0 ->
  match post with
  | [] => True
  | t :: _ => pos < start_of inv (diff_of inv pre 0) t
  end ->
  StepMap.map_result (StepMap.mk (flat (pre ++ post)) inv) pos assoc
  = Ok (MapResult.mk (pos + diff_of inv pre 0) 0 None).
Proof.
  intros Hp Hnext. unfold StepMap.map_result.
  rewrite _map_flat, locate_passes by assumption.
  destruct post as [| t post]; [reflexivity |].
  cbn [locate].
  destruct (Z.gtb_spec (start_of inv (diff_of inv pre 0) t) pos); [| lia].
  reflexivity.
Qed.

Lemma map_outside_ranges_witness :
  StepMap.map_result
    (StepMap.mk (flat ([(2, 2, 0); (5, 2, 5)] ++ [(20, 1, 1)])) false) 10 1
  = Ok (MapResult.mk (10 + 1) 0 None).
Proof.
  apply (map_outside_ranges false [(2, 2, 0); (5, 2, 5)] [(20, 1, 1)] 10 1).
  - simpl. lia.
  - simpl. lia.
Defined.

(** X6: the token that [map_result] hands out for a deleted position names
    the range the position lies in and its offset from the start of that
    range, for a range index below [2**16]. *)
Theorem token_names_range (inv : bool) (pre : list triple) (t : triple)
    (post : list triple) (pos assoc : Z) :
  let diff := diff_of inv pre 0 in
  let start := start_of inv diff t in
  let end_ := start + old_of inv t in
  passes inv pos pre 0 ->
  start <= pos <= end_ ->
  pos <> (if assoc <? 0 then start else end_) ->
  Z.of_nat (length pre) < factor16 ->
  pos - start < 2 ^ 37 ->
  exists token,
    fmap MapResult.recover
      (StepMap.map_result (StepMap.mk (flat (pre ++ t :: post)) inv)
         pos assoc)
    = Ok (Some token) /\
    recover_index token = Z.of_nat (length pre) /\
    recover_offset token = pos - start.
Proof.
  cbv zeta. intros Hp Hin Hne Hk _.
  exists (make_recover (Z.of_nat (length pre))
            (pos - start_of inv (diff_of inv pre 0) t)).
  split.
  - unfold StepMap.map_result. rewrite _map_flat, locate_passes by assumption.
    cbn [locate].
    destruct (Z.gtb_spec (start_of inv (diff_of inv pre 0) t) pos); [lia |].
    destruct (Z.leb_spec pos (start_of inv (diff_of inv pre 0) t
                              + old_of inv t)); [| lia].
    cbn [answer fmap bind MapResult.recover Nat.add]. unfold hit_recover.
    destruct (Z.eqb_spec pos
                (if assoc <? 0 then start_of inv (diff_of inv pre 0) t
                 else start_of inv (diff_of inv pre 0) t + old_of inv t));
      [contradiction | reflexivity].
  - rewrite recover_index_mod, recover_offset_div. unfold make_recover.
    assert (Hf : factor16 <> 0) by (unfold factor16; lia).
    rewrite Z.mod_add, Z.div_add by assumption.
    rewrite Z.mod_small, Z.div_small by lia. lia.
Qed.

Lemma token_names_range_witness :
  exists token,
    fmap MapResult.recover
      (StepMap.map_result
         (StepMap.mk (flat ([(2, 2, 0)] ++ (5, 4, 1) :: [])) false) 7 1)
    = Ok (Some token) /\
    recover_index token = Z.of_nat (length [(2, 2, 0)]) /\
    recover_offset token = 7 - 5.
Proof.
  apply (token_names_range false [(2, 2, 0)] (5, 4, 1) [] 7 1).
  - simpl. lia.
  - simpl. lia.
  - simpl. lia.
  - vm_compute. reflexivity.
  - vm_compute. reflexivity.
Defined.

(** ** The mirror table *)

Lemma flatp_length (ps : list (Z * Z)) :
  length (flatp ps) = (2 * length ps)%nat.
Proof.
  induction ps as [| [a b] ps IH]; [reflexivity |].
  cbn [flatp flat_map app length] in *. unfold flatp in IH. lia.
Qed.

Lemma flatp_app (pre ps : list (Z * Z)) :
  flatp (pre ++ ps) = flatp pre ++ flatp ps.
Proof. apply flat_map_app. Qed.

Lemma getitem_flatp (pre : list (Z * Z)) (a b : Z) (ps : list (Z * Z)) :
  getitem (flatp (pre ++ (a, b) :: ps)) (Z.of_nat (2 * length pre)) = Ok a /\
  getitem (flatp (pre ++ (a, b) :: ps)) (Z.of_nat (2 * length pre + 1))
  = Ok b.
Proof.
  rewrite flatp_app. cbn [flatp flat_map app fst snd].
  fold (flatp ps). fold (flatp pre).
  rewrite !getitem_of_nat, <- flatp_length.
  rewrite !nth_error_app2 by lia.
  replace (length (flatp pre) - length (flatp pre))%nat with 0%nat by lia.
  replace (length (flatp pre) + 1 - length (flatp pre))%nat with 1%nat by lia.
  split; reflexivity.
Qed.

Lemma get_mirror_loop_pairs (n : Z) (ps : list (Z * Z)) :
  forall pre : list (Z * Z),
  Mapping.get_mirror_loop (flatp (pre ++ ps)) n
    (List.map (fun k => 0 + Z.of_nat k)
       (seq (2 * length pre) (2 * length ps)))
  = Ok (partner ps n).
Proof.
  induction ps as [| [a b] ps IH]; intros pre; [reflexivity |].
  replace (2 * length ((a, b) :: ps))%nat with (S (S (2 * length ps)))
    by (cbn [length]; lia).
  cbn [seq List.map Mapping.get_mirror_loop partner].
  destruct (getitem_flatp pre a b ps) as [Ha Hb].
  replace (0 + Z.of_nat (S (2 * length pre)))
    with (Z.of_nat (2 * length pre + 1)) by lia.
  rewrite Z.add_0_l, Ha, Hb. cbn [bind].
  destruct (a =? n).
  - replace (Z.of_nat (2 * length pre) mod 2) with 0
      by (rewrite Nat2Z.inj_mul, Z.mul_comm, Z.mod_mul; lia).
    cbn [Z.eqb negb].
    replace (Z.of_nat (2 * length pre) + 1)
      with (Z.of_nat (2 * length pre + 1)) by lia.
    now rewrite Hb.
  - destruct (b =? n).
    + replace (Z.of_nat (2 * length pre + 1) mod 2) with 1.
      * cbn [Z.eqb negb].
        replace (Z.of_nat (2 * length pre + 1) + -1)
          with (Z.of_nat (2 * length pre)) by lia.
        now rewrite Ha.
      * replace (Z.of_nat (2 * length pre + 1))
          with (1 + Z.of_nat (length pre) * 2) by lia.
        now rewrite Z.mod_add by lia.
    + specialize (IH (pre ++ [(a, b)])).
      rewrite <- app_assoc, length_app in IH. cbn [app length] in IH.
      replace (2 * (length pre + 1))%nat with (S (S (2 * length pre)))
        in IH by lia.
      exact IH.
Qed.

Lemma get_mirror_of_pairs (self : Mapping.t) (ps : list (Z * Z)) (n : Z) :
  mirror_pairs self ps ->
  Mapping.get_mirror self n = Ok (partner ps n).
Proof.
  unfold mirror_pairs, Mapping.get_mirror.
  destruct (Mapping.mirror self) as [l |]; intros H; subst;
    [| reflexivity].
  destruct ps as [| [a b] ps]; [reflexivity |].
  cbn [flatp flat_map app Mapping.truthy]. fold (flatp ps).
  change (fst (a, b) :: snd (a, b) :: flatp ps) with (flatp ((a, b) :: ps)).
  rewrite py_range_unit. unfold len. rewrite flatp_length.
  replace (Z.to_nat (Z.of_nat (2 * length ((a, b) :: ps)) - 0))
    with (2 * length ((a, b) :: ps))%nat by lia.
  exact (get_mirror_loop_pairs n ((a, b) :: ps) []).
Qed.

(** X7: on a mirror table made of pairs, [get_mirror] never raises and
    returns the other half of the first pair that holds the index,
    whichever half was stored first; [None] when no pair holds it. *)
Theorem get_mirror_partner (self : Mapping.t) (ps : list (Z * Z)) (n : Z) :
  mirror_pairs self ps ->
  Mapping.get_mirror self n = Ok (partner ps n).
Proof. apply get_mirror_of_pairs. Qed.

Lemma get_mirror_partner_witness :
  Mapping.get_mirror (Mapping.mk [] (Some [3; 1; 0; 2]) 0 0) 2
  = Ok (partner [(3, 1); (0, 2)] 2).
Proof.
  apply (get_mirror_partner (Mapping.mk [] (Some [3; 1; 0; 2]) 0 0)
           [(3, 1); (0, 2)] 2).
  reflexivity.
Defined.

Lemma set_mirror_pairs (self : Mapping.t) (ps : list (Z * Z)) (n m : Z) :
  mirror_pairs self ps ->
  mirror_pairs (Mapping.set_mirror self n m) (ps ++ [(n, m)]).
Proof.
  unfold mirror_pairs, Mapping.set_mirror. cbn [Mapping.mirror].
  rewrite flatp_app.
  destruct (Mapping.mirror self) as [[| x l] |]; intros H;
    cbn [Mapping.truthy].
  - destruct ps as [| [a b] ps]; [reflexivity | discriminate].
  - now rewrite H.
  - now subst.
Qed.

Lemma partner_app (ps qs : list (Z * Z)) (k : Z) :
  partner (ps ++ qs) k
  = match partner ps k with Some x => Some x | None => partner qs k end.
Proof.
  induction ps as [| [a b] ps IH]; [reflexivity |].
  cbn [app partner]. destruct (a =? k); [reflexivity |].
  destruct (b =? k); [reflexivity | exact IH].
Qed.

(** X8: [set_mirror(n, m)] on a table of pairs leaves every link that is
    there as it is, and makes [n] and [m] partners of each other when
    neither had one. *)
Theorem set_mirror_get_mirror (self : Mapping.t) (ps : list (Z * Z))
    (n m : Z) :
  mirror_pairs self ps ->
  (forall k x,
     Mapping.get_mirror self k = Ok (Some x) ->
     Mapping.get_mirror (Mapping.set_mirror self n m) k = Ok (Some x)) /\
  (forall k,
     k <> n -> k <> m ->
     Mapping.get_mirror (Mapping.set_mirror self n m) k
     = Mapping.get_mirror self k) /\
  (Mapping.get_mirror self n = Ok None ->
   Mapping.get_mirror self m = Ok None ->
   Mapping.get_mirror (Mapping.set_mirror self n m) n = Ok (Some m) /\
   Mapping.get_mirror (Mapping.set_mirror self n m) m = Ok (Some n)).
Proof.
  intros Hp. pose proof (set_mirror_pairs self ps n m Hp) as Hp'.
  assert (Hget : forall k,
             Mapping.get_mirror (Mapping.set_mirror self n m) k
             = Ok (match partner ps k with
                   | Some x => Some x
                   | None => partner [(n, m)] k
                   end)).
  { intros k. rewrite (get_mirror_of_pairs _ _ k Hp'). now rewrite partner_app. }
  repeat split.
  - intros k x H. rewrite (get_mirror_of_pairs _ _ k Hp) in H.
    injection H as H. now rewrite Hget, H.
  - intros k Hn Hm. rewrite Hget, (get_mirror_of_pairs _ _ k Hp).
    destruct (partner ps k); [reflexivity |]. cbn [partner].
    destruct (Z.eqb_spec n k); [congruence |].
    destruct (Z.eqb_spec m k); [congruence | reflexivity].
  - rewrite (get_mirror_of_pairs _ _ n Hp) in H. injection H as H.
    rewrite Hget, H. cbn [partner]. now rewrite Z.eqb_refl.
  - rewrite (get_mirror_of_pairs _ _ m Hp) in H0. injection H0 as H0.
    rewrite Hget, H0. cbn [partner].
    destruct (Z.eqb_spec n m); [now subst | now rewrite Z.eqb_refl].
Qed.

Lemma set_mirror_get_mirror_witness :
  (forall k x,
     Mapping.get_mirror (Mapping.mk [] (Some [3; 1]) 0 0) k = Ok (Some x) ->
     Mapping.get_mirror
       (Mapping.set_mirror (Mapping.mk [] (Some [3; 1]) 0 0) 0 2) k
     = Ok (Some x)) /\
  (forall k,
     k <> 0 -> k <> 2 ->
     Mapping.get_mirror
       (Mapping.set_mirror (Mapping.mk [] (Some [3; 1]) 0 0) 0 2) k
     = Mapping.get_mirror (Mapping.mk [] (Some [3; 1]) 0 0) k) /\
  (Mapping.get_mirror (Mapping.mk [] (Some [3; 1]) 0 0) 0 = Ok None ->
   Mapping.get_mirror (Mapping.mk [] (Some [3; 1]) 0 0) 2 = Ok None ->
   Mapping.get_mirror
     (Mapping.set_mirror (Mapping.mk [] (Some [3; 1]) 0 0) 0 2) 0
   = Ok (Some 2) /\
   Mapping.get_mirror
     (Mapping.set_mirror (Mapping.mk [] (Some [3; 1]) 0 0) 0 2) 2
   = Ok (Some 0)).
Proof.
  apply (set_mirror_get_mirror (Mapping.mk [] (Some [3; 1]) 0 0) [(3, 1)] 0 2).
  reflexivity.
Defined.

(** ** Chains: copies, slices and appended maps *)

Lemma mapping_loop_done (self : Mapping.t) (assoc : Z) (fuel : nat)
    (i pos del_info : Z) :
  Mapping.to self <= i ->
  Mapping._map_loop fuel self assoc i pos del_info = Ok (pos, del_info).
Proof.
  intros H. destruct fuel; cbn [Mapping._map_loop];
    destruct (Z.ltb_spec i (Mapping.to self)); (lia || reflexivity).
Qed.

(** [map] is the position component of the loop of [_map], with or
    without mirror links. *)
Lemma mapping_map_loop (self : Mapping.t) (pos assoc : Z) :
  Mapping.map self pos assoc
  = fmap fst
      (Mapping._map_loop
         (Z.to_nat (Mapping.to self - Mapping.from_ self)) self assoc
         (Mapping.from_ self) pos 0).
Proof.
  unfold Mapping.map.
  destruct (Mapping.truthy (Mapping.mirror self)) eqn:Hm.
  - unfold Mapping._map.
    destruct (Mapping._map_loop _ _ _ _ _ _); reflexivity.
  - symmetry. apply mapping_loop_fold; [assumption | lia].
Qed.

(** The loop of [_map] reads a chain through its maps, the end of its
    window and its mirror lookups only. *)
Lemma mapping_loop_ext (c1 c2 : Mapping.t) (assoc : Z) :
  Mapping.maps c1 = Mapping.maps c2 ->
  Mapping.to c1 = Mapping.to c2 ->
  (forall n, Mapping.get_mirror c1 n = Mapping.get_mirror c2 n) ->
  forall (fuel : nat) (i pos del_info : Z),
  Mapping._map_loop fuel c1 assoc i pos del_info
  = Mapping._map_loop fuel c2 assoc i pos del_info.
Proof.
  intros Hmaps Hto Hget.
  induction fuel as [| fuel IH]; intros i pos del_info;
    cbn [Mapping._map_loop]; rewrite Hto, ?Hmaps, ?Hget; [reflexivity |].
  destruct (i <? Mapping.to c2); [| reflexivity].
  destruct (getitem (Mapping.maps c2) i) as [m | e]; cbn [bind];
    [| reflexivity].
  destruct (StepMap.map_result m pos assoc) as [result | e]; cbn [bind];
    [| reflexivity].
  rewrite !IH.
  destruct (MapResult.recover result) as [token |]; [| reflexivity].
  destruct (Mapping.get_mirror c2 i) as [[corr |] | e]; cbn [bind];
    try reflexivity.
  destruct ((corr >? i) && (corr <? Mapping.to c2)); [| reflexivity].
  destruct (getitem (Mapping.maps c2) corr) as [partner | e]; cbn [bind];
    [| reflexivity].
  destruct (StepMap.recover partner token) as [pos' | e]; cbn [bind];
    [apply IH | reflexivity].
Qed.

(** X9: a copy of a chain has the same mirror lookups and maps every
    position as the chain does, on both paths. *)
Theorem copy_maps_alike (c : Mapping.t) (pos assoc : Z) :
  (forall n, Mapping.get_mirror (Mapping.copy c) n = Mapping.get_mirror c n) /\
  Mapping.map (Mapping.copy c) pos assoc = Mapping.map c pos assoc /\
  Mapping.map_result (Mapping.copy c) pos assoc
  = Mapping.map_result c pos assoc.
Proof.
  assert (Hmaps : Mapping.maps (Mapping.copy c) = Mapping.maps c).
  { unfold Mapping.copy, Mapping.init. cbn [Mapping.maps Mapping.truthy].
    destruct (Mapping.maps c); reflexivity. }
  assert (Hget : forall n,
             Mapping.get_mirror (Mapping.copy c) n = Mapping.get_mirror c n).
  { intros n. unfold Mapping.get_mirror, Mapping.copy, Mapping.init.
    cbn [Mapping.mirror].
    destruct (Mapping.mirror c) as [[| x l] |]; reflexivity. }
  assert (Hloop : forall fuel i p d,
             Mapping._map_loop fuel (Mapping.copy c) assoc i p d
             = Mapping._map_loop fuel c assoc i p d).
  { apply mapping_loop_ext; [exact Hmaps | reflexivity | exact Hget]. }
  split; [exact Hget |]. split.
  - rewrite !mapping_map_loop. now rewrite Hloop.
  - unfold Mapping.map_result, Mapping._map. now rewrite Hloop.
Qed.

(** X10: a slice of one map maps as that map does, whatever the rest of
    the chain and its mirror pairs are. *)
Theorem slice_one_map (c : Mapping.t) (ps : list (Z * Z)) (i pos assoc : Z) :
  mirror_pairs c ps ->
  Mapping.map (Mapping.slice c i (Some (i + 1))) pos assoc
  = (m <- getitem (Mapping.maps c) i ;; StepMap.map m pos assoc) /\
  Mapping.map_result (Mapping.slice c i (Some (i + 1))) pos assoc
  = (m <- getitem (Mapping.maps c) i ;;
     r <- StepMap.map_result m pos assoc ;;
     Ok (MapResult.mk (MapResult.pos r) (MapResult.del_info r) None)).
Proof.
  intros Hp.
  set (s := Mapping.slice c i (Some (i + 1))).
  assert (Hmaps : Mapping.maps s = Mapping.maps c).
  { unfold s, Mapping.slice, Mapping.init. cbn [Mapping.maps Mapping.truthy].
    destruct (Mapping.maps c); reflexivity. }
  assert (Hloop : Mapping._map_loop 1 s assoc i pos 0
                  = (m <- getitem (Mapping.maps c) i ;;
                     r <- StepMap.map_result m pos assoc ;;
                     Ok (MapResult.pos r, MapResult.del_info r))).
  { cbn [Mapping._map_loop]. rewrite Hmaps.
    change (Mapping.to s) with (i + 1).
    destruct (Z.ltb_spec i (i + 1)); [| lia].
    destruct (Z.ltb_spec (i + 1) (i + 1)); [lia |].
    destruct (getitem (Mapping.maps c) i) as [m | e]; cbn [bind];
      [| reflexivity].
    destruct (StepMap.map_result m pos assoc) as [r | e]; cbn [bind];
      [| reflexivity].
    destruct (MapResult.recover r) as [token |]; [| reflexivity].
    replace (Mapping.get_mirror s i) with (Ok (A := option Z) (partner ps i))
      by (symmetry; apply get_mirror_of_pairs; exact Hp).
    cbn [bind]. destruct (partner ps i) as [corr |]; [| reflexivity].
    destruct (Z.gtb_spec corr i); cbn [andb]; [| reflexivity].
    destruct (Z.ltb_spec corr (i + 1)); [lia | reflexivity]. }
  assert (Hfuel : Z.to_nat (Mapping.to s - Mapping.from_ s) = 1%nat).
  { change (Mapping.to s) with (i + 1). change (Mapping.from_ s) with i. lia. }
  split.
  - rewrite mapping_map_loop, Hfuel. change (Mapping.from_ s) with i.
    rewrite Hloop.
    destruct (getitem (Mapping.maps c) i) as [m | e]; cbn [bind fmap];
      [| reflexivity].
    rewrite step_map_pos.
    destruct (StepMap.map_result m pos assoc); reflexivity.
  - unfold Mapping.map_result, Mapping._map. rewrite Hfuel.
    change (Mapping.from_ s) with i. rewrite Hloop.
    destruct (getitem (Mapping.maps c) i) as [m | e]; cbn [bind];
      [| reflexivity].
    destruct (StepMap.map_result m pos assoc); reflexivity.
Qed.

Lemma slice_one_map_witness :
  Mapping.map
    (Mapping.slice
       (Mapping.mk [StepMap.mk [2; 4; 0] false; StepMap.mk [2; 0; 4] false]
          (Some [1; 0]) 0 2) 0 (Some (0 + 1))) 4 1
  = (m <- getitem [StepMap.mk [2; 4; 0] false; StepMap.mk [2; 0; 4] false] 0 ;;
     StepMap.map m 4 1) /\
  Mapping.map_result
    (Mapping.slice
       (Mapping.mk [StepMap.mk [2; 4; 0] false; StepMap.mk [2; 0; 4] false]
          (Some [1; 0]) 0 2) 0 (Some (0 + 1))) 4 1
  = (m <- getitem [StepMap.mk [2; 4; 0] false; StepMap.mk [2; 0; 4] false] 0 ;;
     r <- StepMap.map_result m 4 1 ;;
     Ok (MapResult.mk (MapResult.pos r) (MapResult.del_info r) None)).
Proof.
  apply (slice_one_map
           (Mapping.mk
              [StepMap.mk [2; 4; 0] false; StepMap.mk [2; 0; 4] false]
              (Some [1; 0]) 0 2) [(1, 0)] 0 4 1).
  reflexivity.
Defined.

Lemma partner_bound (L : Z) (ps : list (Z * Z)) (n x : Z) :
  Forall (fun p : Z * Z => fst p < L /\ snd p < L) ps ->
  partner ps n = Some x -> n < L /\ x < L.
Proof.
  induction ps as [| [a b] ps IH]; intros HF H; [discriminate |].
  inversion HF as [| p l [Ha Hb] HF']; subst. cbn [fst snd] in *.
  cbn [partner] in H.
  destruct (Z.eqb_spec a n); [injection H as <-; lia |].
  destruct (Z.eqb_spec b n); [injection H as <-; lia |].
  now apply IH.
Qed.

Lemma getitem_app_l {A : Type} (l : list A) (x : A) (i : Z) :
  0 <= i < len l -> getitem (l ++ [x]) i = getitem l i.
Proof.
  unfold len. intros H.
  rewrite <- (Z2Nat.id i) by lia. rewrite !getitem_of_nat.
  now rewrite nth_error_app1 by lia.
Qed.

Lemma getitem_app_last {A : Type} (l : list A) (x : A) :
  getitem (l ++ [x]) (len l) = Ok x.
Proof.
  unfold len. rewrite getitem_of_nat, nth_error_app2 by lia.
  now rewrite Nat.sub_diag.
Qed.

(** One iteration of the loop of [_map]. *)
Lemma mapping_loop_S (fuel : nat) (self : Mapping.t)
    (assoc i pos del_info : Z) :
  Mapping._map_loop (S fuel) self assoc i pos del_info
  = if i <? Mapping.to self then
      map <- getitem (Mapping.maps self) i ;;
      result <- StepMap.map_result map pos assoc ;;
      match MapResult.recover result with
      | Some token =>
        corr <- Mapping.get_mirror self i ;;
        match corr with
        | Some corr =>
          if (corr >? i) && (corr <? Mapping.to self) then
            partner <- getitem (Mapping.maps self) corr ;;
            pos' <- StepMap.recover partner token ;;
            Mapping._map_loop fuel self assoc (corr + 1) pos' del_info
          else
            Mapping._map_loop fuel self assoc (i + 1) (MapResult.pos result)
              (Z.lor del_info (MapResult.del_info result))
        | None =>
          Mapping._map_loop fuel self assoc (i + 1) (MapResult.pos result)
            (Z.lor del_info (MapResult.del_info result))
        end
      | None =>
        Mapping._map_loop fuel self assoc (i + 1) (MapResult.pos result)
          (Z.lor del_info (MapResult.del_info result))
      end
    else Ok (pos, del_info).
Proof. reflexivity. Qed.

(** The loop of [_map] on a chain with one more map: the loop of the
    chain, then the new map. *)
Lemma append_map_loop (c : Mapping.t) (m : StepMap.t) (ps : list (Z * Z))
    (assoc : Z) :
  Mapping.to c = len (Mapping.maps c) ->
  mirror_pairs c ps ->
  Forall (fun p : Z * Z => fst p < len (Mapping.maps c) /\
                           snd p < len (Mapping.maps c)) ps ->
  forall (fuel : nat) (i pos del_info : Z),
  0 <= i <= len (Mapping.maps c) ->
  (Z.to_nat (len (Mapping.maps c) - i) <= fuel)%nat ->
  Mapping._map_loop (S fuel) (Mapping.append_map c m None) assoc i pos del_info
  = (r <- Mapping._map_loop fuel c assoc i pos del_info ;;
     r2 <- StepMap.map_result m (fst r) assoc ;;
     Ok (MapResult.pos r2, Z.lor (snd r) (MapResult.del_info r2))).
Proof.
  intros Hto Hp HF.
  set (c' := Mapping.append_map c m None).
  assert (Hto' : Mapping.to c' = len (Mapping.maps c) + 1).
  { unfold c', Mapping.append_map. cbn [Mapping.to]. unfold len.
    rewrite length_app. cbn [length]. lia. }
  assert (Hmaps' : Mapping.maps c' = Mapping.maps c ++ [m]) by reflexivity.
  assert (Hget : forall n, Mapping.get_mirror c' n = Ok (partner ps n)).
  { intros n. apply get_mirror_of_pairs. exact Hp. }
  assert (Hget0 : forall n, Mapping.get_mirror c n = Ok (partner ps n)).
  { intros n. apply get_mirror_of_pairs. exact Hp. }
  assert (Hlast : forall fuel pos del_info,
            Mapping._map_loop (S fuel) c' assoc (len (Mapping.maps c))
              pos del_info
            = (r2 <- StepMap.map_result m pos assoc ;;
               Ok (MapResult.pos r2,
                   Z.lor del_info (MapResult.del_info r2)))).
  { intros fuel pos del_info. rewrite mapping_loop_S.
    rewrite Hto', Hmaps', getitem_app_last, Hget.
    destruct (Z.ltb_spec (len (Mapping.maps c)) (len (Mapping.maps c) + 1));
      [| lia].
    cbn [bind].
    destruct (StepMap.map_result m pos assoc) as [r2 | e]; cbn [bind];
      [| reflexivity].
    rewrite <- Hmaps', (mapping_loop_done c') by lia.
    destruct (MapResult.recover r2); [| reflexivity].
    destruct (partner ps (len (Mapping.maps c))) as [corr |] eqn:E;
      [| reflexivity].
    apply (partner_bound _ _ _ _ HF) in E. lia. }
  induction fuel as [| fuel IH]; intros i pos del_info Hi Hf.
  - assert (i = len (Mapping.maps c)) by lia. subst i.
    rewrite Hlast, (mapping_loop_done c) by lia. reflexivity.
  - destruct (Z.eq_dec i (len (Mapping.maps c))) as [-> | Hne].
    + rewrite Hlast, (mapping_loop_done c) by lia. reflexivity.
    + rewrite (mapping_loop_S (S fuel) c'), (mapping_loop_S fuel c).
      rewrite Hto, Hto', Hmaps', Hget, Hget0, getitem_app_l by lia.
      destruct (Z.ltb_spec i (len (Mapping.maps c) + 1)); [| lia].
      destruct (Z.ltb_spec i (len (Mapping.maps c))); [| lia].
      destruct (getitem (Mapping.maps c) i) as [mi | e]; cbn [bind];
        [| reflexivity].
      destruct (StepMap.map_result mi pos assoc) as [result | e]; cbn [bind];
        [| reflexivity].
      rewrite (IH (i + 1)) by lia.
      destruct (MapResult.recover result) as [token |]; [| reflexivity].
      destruct (partner ps i) as [corr |] eqn:E; [| reflexivity].
      apply (partner_bound _ _ _ _ HF) in E.
      destruct (Z.gtb_spec corr i); cbn [andb]; [| reflexivity].
      destruct (Z.ltb_spec corr (len (Mapping.maps c) + 1)); [| lia].
      destruct (Z.ltb_spec corr (len (Mapping.maps c))); [| lia].
      rewrite getitem_app_l by lia.
      destruct (getitem (Mapping.maps c) corr) as [partner | e]; cbn [bind];
        [| reflexivity].
      destruct (StepMap.recover partner token) as [pos' | e]; cbn [bind];
        [| reflexivity].
      apply IH; lia.
Qed.

(** X11: appending a map to a chain that ends at its last map, with its
    mirror indices inside the chain, composes: the new chain maps a
    position as the chain does and then as the new map does, and joins
    the deletion flags. *)
Theorem append_map_composes (c : Mapping.t) (m : StepMap.t)
    (ps : list (Z * Z)) (pos assoc : Z) :
  Mapping.to c = len (Mapping.maps c) ->
  0 <= Mapping.from_ c <= len (Mapping.maps c) ->
  mirror_pairs c ps ->
  Forall (fun p : Z * Z => fst p < len (Mapping.maps c) /\
                           snd p < len (Mapping.maps c)) ps ->
  Mapping.map (Mapping.append_map c m None) pos assoc
  = (x <- Mapping.map c pos assoc ;; StepMap.map m x assoc) /\
  Mapping.map_result (Mapping.append_map c m None) pos assoc
  = (r <- Mapping.map_result c pos assoc ;;
     r2 <- StepMap.map_result m (MapResult.pos r) assoc ;;
     Ok (MapResult.mk (MapResult.pos r2)
           (Z.lor (MapResult.del_info r) (MapResult.del_info r2)) None)).
Proof.
  intros Hto Hfrom Hp HF.
  assert (Hfuel :
    Z.to_nat (Mapping.to (Mapping.append_map c m None)
              - Mapping.from_ (Mapping.append_map c m None))
    = S (Z.to_nat (Mapping.to c - Mapping.from_ c))).
  { unfold Mapping.append_map. cbn [Mapping.to Mapping.from_]. unfold len.
    rewrite length_app. cbn [length]. unfold len in Hto, Hfrom. lia. }
  assert (Hloop := append_map_loop c m ps assoc Hto Hp HF
                     (Z.to_nat (Mapping.to c - Mapping.from_ c))
                     (Mapping.from_ c) pos 0 Hfrom ltac:(lia)).
  split.
  - rewrite !mapping_map_loop, Hfuel.
    change (Mapping.from_ (Mapping.append_map c m None))
      with (Mapping.from_ c).
    rewrite Hloop.
    destruct (Mapping._map_loop _ c _ _ _ _) as [[x d] | e];
      cbn [bind fmap fst snd]; [| reflexivity].
    rewrite step_map_pos.
    destruct (StepMap.map_result m x assoc); reflexivity.
  - unfold Mapping.map_result, Mapping._map. rewrite Hfuel.
    change (Mapping.from_ (Mapping.append_map c m None))
      with (Mapping.from_ c).
    rewrite Hloop.
    destruct (Mapping._map_loop _ c _ _ _ _) as [[x d] | e];
      cbn [bind fst snd MapResult.pos MapResult.del_info]; [| reflexivity].
    destruct (StepMap.map_result m x assoc); reflexivity.
Qed.

Lemma append_map_composes_witness :
  Mapping.map
    (Mapping.append_map
       (Mapping.mk [StepMap.mk [2; 4; 0] false; StepMap.mk [2; 0; 4] false]
          (Some [1; 0]) 0 2) (StepMap.mk [5; 2; 4] false) None) 4 1
  = (x <- Mapping.map
            (Mapping.mk
               [StepMap.mk [2; 4; 0] false; StepMap.mk [2; 0; 4] false]
               (Some [1; 0]) 0 2) 4 1 ;;
     StepMap.map (StepMap.mk [5; 2; 4] false) x 1) /\
  Mapping.map_result
    (Mapping.append_map
       (Mapping.mk [StepMap.mk [2; 4; 0] false; StepMap.mk [2; 0; 4] false]
          (Some [1; 0]) 0 2) (StepMap.mk [5; 2; 4] false) None) 4 1
  = (r <- Mapping.map_result
            (Mapping.mk
               [StepMap.mk [2; 4; 0] false; StepMap.mk [2; 0; 4] false]
               (Some [1; 0]) 0 2) 4 1 ;;
     r2 <- StepMap.map_result (StepMap.mk [5; 2; 4] false)
             (MapResult.pos r) 1 ;;
     Ok (MapResult.mk (MapResult.pos r2)
           (Z.lor (MapResult.del_info r) (MapResult.del_info r2)) None)).
Proof.
  apply (append_map_composes
           (Mapping.mk
              [StepMap.mk [2; 4; 0] false; StepMap.mk [2; 0; 4] false]
              (Some [1; 0]) 0 2) (StepMap.mk [5; 2; 4] false) [(1, 0)] 4 1).
  - reflexivity.
  - vm_compute. split; discriminate.
  - reflexivity.
  - repeat constructor.
Defined.

(** ** Inverting a chain *)

Lemma firstn_snoc {A : Type} (l : list A) (k : nat) (x : A) :
  nth_error l k = Some x -> firstn (S k) l = firstn k l ++ [x].
Proof.
  revert k. induction l as [| y l IH]; intros [| k] H; try discriminate.
  - injection H as <-. reflexivity.
  - cbn [firstn app]. f_equal. now apply IH.
Qed.

Lemma get_mirror_no_raise (self : Mapping.t) (ps : list (Z * Z)) (n : Z) :
  mirror_pairs self ps -> exists o, Mapping.get_mirror self n = Ok o.
Proof.
  intros H. exists (partner ps n). now apply get_mirror_of_pairs.
Qed.

(** The loop of [append_mapping_inverted] from index [k - 1] down: it
    appends the first [k] maps of the argument, last one first, each
    inverted. *)
Lemma append_mapping_inverted_loop_shape (mapping : Mapping.t)
    (ps : list (Z * Z)) (total_size : Z) :
  mirror_pairs mapping ps ->
  forall (k fuel : nat) (self : Mapping.t),
  (k <= length (Mapping.maps mapping))%nat -> (k <= fuel)%nat ->
  Mapping.to self = len (Mapping.maps self) ->
  exists self',
    Mapping.append_mapping_inverted_loop fuel self mapping
      (Z.of_nat k - 1) total_size = Ok self' /\
    Mapping.maps self'
    = Mapping.maps self
      ++ List.map StepMap.invert (rev (firstn k (Mapping.maps mapping))) /\
    Mapping.from_ self' = Mapping.from_ self /\
    Mapping.to self' = len (Mapping.maps self') /\
    (Mapping.truthy (Mapping.mirror mapping) = false ->
     Mapping.mirror self' = Mapping.mirror self).
Proof.
  intros Hp.
  induction k as [| k IH]; intros fuel self Hk Hf Hto.
  - exists self.
    assert (Hloop : Mapping.append_mapping_inverted_loop fuel self mapping
                      (Z.of_nat 0 - 1) total_size = Ok self)
      by (destruct fuel; reflexivity).
    rewrite Hloop. clear Hloop.
    cbn [firstn rev List.map]. rewrite app_nil_r. repeat split; assumption.
  - destruct fuel as [| fuel]; [lia |].
    cbn [Mapping.append_mapping_inverted_loop].
    replace (Z.of_nat (S k) - 1) with (Z.of_nat k) by lia.
    destruct (Z.geb_spec (Z.of_nat k) 0); [| lia].
    destruct (get_mirror_no_raise mapping ps (Z.of_nat k) Hp) as [mirr Hm].
    rewrite Hm. cbn [bind].
    destruct (nth_error (Mapping.maps mapping) k) as [x |] eqn:Ex;
      [| apply nth_error_None in Ex; lia].
    rewrite getitem_of_nat, Ex. cbn [bind].
    rewrite (firstn_snoc _ _ _ Ex), rev_app_distr. cbn [rev app List.map].
    replace (Z.of_nat k - 1 - 1 + 1) with (Z.of_nat k - 1) by lia.
    set (mirrors := match mirr with
                    | Some mi =>
                      if mi >? Z.of_nat k then Some (total_size - mi - 1)
                      else None
                    | None => None
                    end).
    set (self1 := Mapping.append_map self (StepMap.invert x) mirrors).
    assert (Hmaps1 : Mapping.maps self1
                     = Mapping.maps self ++ [StepMap.invert x])
      by (unfold self1, Mapping.append_map; destruct mirrors; reflexivity).
    assert (Hfrom1 : Mapping.from_ self1 = Mapping.from_ self)
      by (unfold self1, Mapping.append_map; destruct mirrors; reflexivity).
    assert (Hto1 : Mapping.to self1 = len (Mapping.maps self1))
      by (unfold self1, Mapping.append_map; destruct mirrors; reflexivity).
    destruct (IH fuel self1 ltac:(lia) ltac:(lia) Hto1)
      as (self' & Hl & Hmaps & Hfrom & Hto' & Hmir).
    exists self'. split; [exact Hl |]. split.
    { now rewrite Hmaps, Hmaps1, <- app_assoc. }
    split; [now rewrite Hfrom, Hfrom1 |]. split; [exact Hto' |].
    intros Hfalsy. rewrite (Hmir Hfalsy).
    unfold self1, mirrors.
    rewrite (get_mirror_falsy mapping _ Hfalsy) in Hm. injection Hm as <-.
    reflexivity.
Qed.

Lemma invert_shape (c : Mapping.t) (ps : list (Z * Z)) :
  mirror_pairs c ps ->
  exists c',
    Mapping.invert c = Ok c' /\
    Mapping.maps c' = List.map StepMap.invert (rev (Mapping.maps c)) /\
    Mapping.from_ c' = 0 /\
    Mapping.to c' = len (Mapping.maps c) /\
    (Mapping.truthy (Mapping.mirror c) = false -> Mapping.mirror c' = None).
Proof.
  intros Hp. unfold Mapping.invert, Mapping.append_mapping_inverted.
  replace (len (Mapping.maps c) - 1)
    with (Z.of_nat (length (Mapping.maps c)) - 1) by reflexivity.
  destruct (append_mapping_inverted_loop_shape c ps
              (len (Mapping.maps (Mapping.init None None None None))
               + len (Mapping.maps c)) Hp
              (length (Mapping.maps c)) (length (Mapping.maps c))
              (Mapping.init None None None None)
              (le_n _) (le_n _) eq_refl)
    as (c' & Hl & Hmaps & Hfrom & Hto & Hmir).
  exists c'. rewrite firstn_all in Hmaps.
  change (Mapping.maps (Mapping.init None None None None)) with (@nil StepMap.t)
    in Hmaps.
  cbn [app] in Hmaps.
  split; [exact Hl |]. split; [exact Hmaps |]. split; [exact Hfrom |].
  split; [| exact Hmir].
  rewrite Hto, Hmaps. unfold len. now rewrite length_map, length_rev.
Qed.

(** X12: [invert] on a chain whose mirror table is made of pairs returns a
    new chain with the maps of the whole chain in reverse order, each
    inverted, and a window over all of them, whatever the window of the
    chain was; a chain without mirror links gives one without. *)
Theorem invert_reverses_maps (c : Mapping.t) (ps : list (Z * Z)) :
  mirror_pairs c ps ->
  exists c',
    Mapping.invert c = Ok c' /\
    Mapping.maps c' = List.map StepMap.invert (rev (Mapping.maps c)) /\
    Mapping.from_ c' = 0 /\
    Mapping.to c' = len (Mapping.maps c) /\
    (Mapping.truthy (Mapping.mirror c) = false -> Mapping.mirror c' = None).
Proof. apply invert_shape. Qed.

Lemma invert_reverses_maps_witness :
  exists c',
    Mapping.invert
      (Mapping.mk [StepMap.mk [2; 4; 0] false; StepMap.mk [2; 0; 4] false]
         (Some [1; 0]) 1 2) = Ok c' /\
    Mapping.maps c'
    = List.map StepMap.invert
        (rev [StepMap.mk [2; 4; 0] false; StepMap.mk [2; 0; 4] false]) /\
    Mapping.from_ c' = 0 /\
    Mapping.to c'
    = len [StepMap.mk [2; 4; 0] false; StepMap.mk [2; 0; 4] false] /\
    (Mapping.truthy (Some [1; 0]) = false -> Mapping.mirror c' = None).
Proof.
  apply (invert_reverses_maps
           (Mapping.mk
              [StepMap.mk [2; 4; 0] false; StepMap.mk [2; 0; 4] false]
              (Some [1; 0]) 1 2) [(1, 0)]).
  reflexivity.
Defined.

(** ** Chains without mirror links *)

Lemma chain_step_raise (assoc : Z) (e : exn) (m : StepMap.t) :
  chain_step assoc (Raise e) m = Raise e.
Proof. reflexivity. Qed.

(** Without mirror links the loop of [_map] folds [chain_step] over the
    maps that are left. *)
Lemma mapping_loop_list (c : Mapping.t) (assoc : Z) :
  Mapping.truthy (Mapping.mirror c) = false ->
  Mapping.to c = len (Mapping.maps c) ->
  forall (ms pre : list StepMap.t) (fuel : nat) (pos del_info : Z),
  Mapping.maps c = pre ++ ms ->
  (length ms <= fuel)%nat ->
  Mapping._map_loop fuel c assoc (len pre) pos del_info
  = fold_left (chain_step assoc) ms (Ok (pos, del_info)).
Proof.
  intros Hm Hto.
  induction ms as [| m ms IH]; intros pre fuel pos del_info Hmaps Hf.
  - apply mapping_loop_done. rewrite Hto, Hmaps, app_nil_r. lia.
  - destruct fuel as [| fuel]; [cbn [length] in Hf; lia |].
    rewrite mapping_loop_S, Hto, Hmaps.
    assert (Hlt : (len pre <? len (pre ++ m :: ms)) = true).
    { apply Z.ltb_lt. unfold len. rewrite length_app. cbn [length]. lia. }
    rewrite Hlt. unfold len at 1.
    rewrite getitem_of_nat, nth_error_app2, Nat.sub_diag by lia.
    cbn [nth_error bind fold_left]. rewrite <- Hmaps.
    rewrite (get_mirror_falsy c _ Hm). cbn [bind].
    unfold chain_step at 2. cbn [bind fst snd].
    destruct (StepMap.map_result m pos assoc) as [r | e]; cbn [bind].
    + assert (Hnext :
        Mapping._map_loop fuel c assoc (len pre + 1) (MapResult.pos r)
          (Z.lor del_info (MapResult.del_info r))
        = fold_left (chain_step assoc) ms
            (Ok (MapResult.pos r, Z.lor del_info (MapResult.del_info r)))).
      { replace (len pre + 1) with (len (pre ++ [m]))
          by (unfold len; rewrite length_app; cbn [length]; lia).
        apply IH; [now rewrite <- app_assoc | cbn [length] in Hf; lia]. }
      destruct (MapResult.recover r); exact Hnext.
    + symmetry. apply fold_left_raise. apply chain_step_raise.
Qed.

Lemma mapping_fold (c : Mapping.t) (pos assoc : Z) :
  Mapping.truthy (Mapping.mirror c) = false ->
  Mapping.from_ c = 0 ->
  Mapping.to c = len (Mapping.maps c) ->
  Mapping.map c pos assoc
  = fmap fst (fold_left (chain_step assoc) (Mapping.maps c) (Ok (pos, 0))) /\
  Mapping.map_result c pos assoc
  = (s <- fold_left (chain_step assoc) (Mapping.maps c) (Ok (pos, 0)) ;;
     Ok (MapResult.mk (fst s) (snd s) None)).
Proof.
  intros Hm Hfrom Hto.
  assert (Hloop :
    Mapping._map_loop (Z.to_nat (Mapping.to c - Mapping.from_ c)) c assoc
      (Mapping.from_ c) pos 0
    = fold_left (chain_step assoc) (Mapping.maps c) (Ok (pos, 0))).
  { rewrite Hfrom. change 0 with (len (@nil StepMap.t)) at 2.
    apply mapping_loop_list; try assumption; [reflexivity |].
    rewrite Hto. unfold len. lia. }
  split.
  - now rewrite mapping_map_loop, Hloop.
  - unfold Mapping.map_result, Mapping._map. now rewrite Hloop.
Qed.

(** A map sends a position that hit no range back through its inverse. *)
Lemma step_back (m : StepMap.t) (p a : Z) (r : MapResult.t) :
  wf_step m ->
  StepMap.map_result m p a = Ok r ->
  MapResult.del_info r = 0 ->
  StepMap.map_result (StepMap.invert m) (MapResult.pos r) (- a)
  = Ok (MapResult.mk p 0 None).
Proof.
  intros (ts & Hr & Hw) Hres Hd.
  destruct m as [ranges inv]. cbn [StepMap.ranges] in Hr. subst ranges.
  unfold StepMap.map_result, StepMap.invert in *.
  cbn [StepMap.ranges StepMap.inverted].
  rewrite _map_flat in Hres. rewrite _map_flat.
  destruct (locate inv p 0 ts 0) as [D | k t D] eqn:Hl.
  - cbn [answer StepMap._map_end] in Hres. injection Hres as <-.
    cbn [MapResult.pos]. rewrite (locate_back p inv ts D Hw Hl).
    cbn [answer StepMap._map_end]. do 2 f_equal. lia.
  - cbn [answer] in Hres. injection Hres as <-.
    cbn [MapResult.del_info] in Hd. now apply hit_del_nonzero in Hd.
Qed.

Lemma chain_back (a : Z) (ms : list StepMap.t) :
  Forall wf_step ms ->
  forall p d q : Z,
  fold_left (chain_step a) ms (Ok (p, d)) = Ok (q, 0) ->
  d = 0 /\
  forall e : Z,
    fold_left (chain_step (- a)) (rev (List.map StepMap.invert ms))
      (Ok (q, e))
    = Ok (p, e).
Proof.
  induction 1 as [| m ms Hm HF IH]; intros p d q Hfold.
  - cbn in Hfold. injection Hfold as <- <-. split; reflexivity.
  - cbn [fold_left] in Hfold. unfold chain_step at 2 in Hfold.
    cbn [bind fst snd] in Hfold.
    destruct (StepMap.map_result m p a) as [r | e] eqn:Hr; cbn [bind] in Hfold;
      [| rewrite fold_left_raise in Hfold
           by apply chain_step_raise; discriminate].
    destruct (IH _ _ _ Hfold) as [Hd Hback].
    apply Z.lor_eq_0_iff in Hd. destruct Hd as [Hd Hdr].
    split; [exact Hd |]. intros e.
    cbn [List.map rev]. rewrite fold_left_app, Hback.
    cbn [fold_left]. unfold chain_step. cbn [bind fst snd].
    rewrite (step_back m p a r Hm Hr Hdr). cbn [bind MapResult.pos
      MapResult.del_info].
    now rewrite Z.lor_0_r.
Qed.

(** X13: on a chain without mirror links whose window is the whole chain
    and whose maps are well formed, a position that [map_result] reports
    with no deletion flag is mapped back to itself by the inverted chain
    under the opposite associativity. *)
Theorem chain_invert_round_trip (c : Mapping.t) (p a : Z)
    (r : MapResult.t) :
  Mapping.truthy (Mapping.mirror c) = false ->
  Mapping.from_ c = 0 ->
  Mapping.to c = len (Mapping.maps c) ->
  Forall wf_step (Mapping.maps c) ->
  Mapping.map_result c p a = Ok r ->
  MapResult.del_info r = 0 ->
  (c' <- Mapping.invert c ;;
   x <- Mapping.map c p a ;;
   Mapping.map c' x (- a)) = Ok p.
Proof.
  intros Hm Hfrom Hto Hwf Hr Hd.
  assert (Hp : mirror_pairs c []).
  { unfold mirror_pairs. destruct (Mapping.mirror c) as [[| x l] |];
      (reflexivity || discriminate). }
  destruct (invert_shape c [] Hp) as (c' & Hinv & Hmaps' & Hfrom' & Hto' & Hm').
  specialize (Hm' Hm).
  rewrite Hinv. cbn [bind].
  destruct (mapping_fold c p a Hm Hfrom Hto) as [Hmap Hres].
  rewrite Hres in Hr. rewrite Hmap.
  destruct (fold_left (chain_step a) (Mapping.maps c) (Ok (p, 0)))
    as [[q d] | e] eqn:Hfold; cbn [bind] in Hr; [| discriminate].
  injection Hr as <-. cbn [MapResult.del_info fst snd] in Hd. subst d.
  cbn [fmap bind fst].
  destruct (chain_back a _ Hwf _ _ _ Hfold) as [_ Hback].
  assert (Hto'' : Mapping.to c' = len (Mapping.maps c')).
  { rewrite Hto', Hmaps'. unfold len. now rewrite length_map, length_rev. }
  assert (Hm'' : Mapping.truthy (Mapping.mirror c') = false)
    by now rewrite Hm'.
  destruct (mapping_fold c' q (- a) Hm'' Hfrom' Hto'') as [Hmap' _].
  rewrite Hmap', Hmaps', map_rev, Hback. reflexivity.
Qed.

Lemma chain_invert_round_trip_witness :
  (c' <- Mapping.invert
           (Mapping.mk
              [StepMap.mk [2; 2; 0] false; StepMap.mk [5; 2; 5] false]
              None 0 2) ;;
   x <- Mapping.map
          (Mapping.mk
             [StepMap.mk [2; 2; 0] false; StepMap.mk [5; 2; 5] false]
             None 0 2) 12 1 ;;
   Mapping.map c' x (- 1)) = Ok 12.
Proof.
  apply (chain_invert_round_trip
           (Mapping.mk
              [StepMap.mk [2; 2; 0] false; StepMap.mk [5; 2; 5] false]
              None 0 2) 12 1 (MapResult.mk 13 0 None)).
  - reflexivity.
  - reflexivity.
  - reflexivity.
  - repeat constructor.
    + exists [(2, 2, 0)]. split; [reflexivity | simpl; lia].
    + exists [(5, 2, 5)]. split; [reflexivity | simpl; lia].
  - vm_compute. reflexivity.
  - reflexivity.
Defined.

Lemma step_monotone (m : StepMap.t) (a p q : Z) :
  wf_step m -> p <= q ->
  exists r1 r2,
    StepMap.map_result m p a = Ok r1 /\
    StepMap.map_result m q a = Ok r2 /\
    MapResult.pos r1 <= MapResult.pos r2.
Proof.
  intros (ts & Hr & Hw) Hpq.
  destruct m as [ranges inv]. cbn [StepMap.ranges] in Hr. subst ranges.
  destruct (well_formed_sorted ts Hw) as [lo Hs].
  assert (Hans : forall x,
            exists r,
              StepMap.map_result (StepMap.mk (flat ts) inv) x a = Ok r /\
              MapResult.pos r = value_of inv x a (locate inv x 0 ts 0)).
  { intros x. unfold StepMap.map_result. rewrite _map_flat.
    destruct (locate inv x 0 ts 0); eexists; split; reflexivity. }
  destruct (Hans p) as (r1 & H1 & E1). destruct (Hans q) as (r2 & H2 & E2).
  exists r1, r2. repeat split; try assumption.
  rewrite E1, E2.
  exact (locate_monotone inv a p q ts Hpq lo 0 0%nat 0%nat Hs).
Qed.

Lemma chain_monotone (a : Z) (ms : list StepMap.t) :
  Forall wf_step ms ->
  forall p q d e : Z,
  p <= q ->
  exists x y d' e',
    fold_left (chain_step a) ms (Ok (p, d)) = Ok (x, d') /\
    fold_left (chain_step a) ms (Ok (q, e)) = Ok (y, e') /\
    x <= y.
Proof.
  induction 1 as [| m ms Hm HF IH]; intros p q d e Hpq.
  - exists p, q, d, e. repeat split. exact Hpq.
  - destruct (step_monotone m a p q Hm Hpq) as (r1 & r2 & H1 & H2 & Hle).
    cbn [fold_left]. unfold chain_step at 2 4. cbn [bind fst snd].
    rewrite H1, H2. cbn [bind]. now apply IH.
Qed.

(** X14: a chain without mirror links whose window is the whole chain and
    whose maps are well formed never raises and keeps the order of
    positions. *)
Theorem chain_map_monotone (c : Mapping.t) (a p q : Z) :
  Mapping.truthy (Mapping.mirror c) = false ->
  Mapping.from_ c = 0 ->
  Mapping.to c = len (Mapping.maps c) ->
  Forall wf_step (Mapping.maps c) ->
  p <= q ->
  exists x y,
    Mapping.map c p a = Ok x /\ Mapping.map c q a = Ok y /\ x <= y.
Proof.
  intros Hm Hfrom Hto Hwf Hpq.
  destruct (chain_monotone a _ Hwf p q 0 0 Hpq)
    as (x & y & d' & e' & H1 & H2 & Hle).
  exists x, y.
  destruct (mapping_fold c p a Hm Hfrom Hto) as [Hp _].
  destruct (mapping_fold c q a Hm Hfrom Hto) as [Hq _].
  rewrite Hp, Hq, H1, H2. repeat split. exact Hle.
Qed.

Lemma chain_map_monotone_witness :
  exists x y,
    Mapping.map
      (Mapping.mk [StepMap.mk [2; 2; 0] false; StepMap.mk [5; 2; 5] true]
         None 0 2) 3 1 = Ok x /\
    Mapping.map
      (Mapping.mk [StepMap.mk [2; 2; 0] false; StepMap.mk [5; 2; 5] true]
         None 0 2) 9 1 = Ok y /\
    x <= y.
Proof.
  apply (chain_map_monotone
           (Mapping.mk
              [StepMap.mk [2; 2; 0] false; StepMap.mk [5; 2; 5] true]
              None 0 2) 1 3 9).
  - reflexivity.
  - reflexivity.
  - reflexivity.
  - repeat constructor.
    + exists [(2, 2, 0)]. split; [reflexivity | simpl; lia].
    + exists [(5, 2, 5)]. split; [reflexivity | simpl; lia].
  - lia.
Defined.

(** ** Error behaviour of [append_mapping] and [touches] *)

(** X15: [append_mapping] raises [IndexError] for every argument chain
    that has a map, whatever the receiver is, and leaves the receiver as
    it is for an argument without maps. *)
Theorem append_mapping_outcome (self mapping : Mapping.t) :
  (Mapping.maps mapping <> [] ->
   Mapping.append_mapping self mapping = Raise IndexError) /\
  (Mapping.maps mapping = [] ->
   Mapping.append_mapping self mapping = Ok self).
Proof.
  split; [apply append_mapping_raises | apply append_mapping_nil].
Qed.

(** X16: [touches] never returns [True]: it returns [False] on a table of
    three entries or more and raises [IndexError] on a shorter one. *)
Theorem touches_always_false (self : StepMap.t) (pos token : Z) :
  StepMap.touches self pos token <> Ok true /\
  (3 <= len (StepMap.ranges self) ->
   StepMap.touches self pos token = Ok false) /\
  (len (StepMap.ranges self) < 3 ->
   StepMap.touches self pos token = Raise IndexError).
Proof.
  split; [apply touches_never_true | apply touches_outcome].
Qed.

(** ** A map and its mirrored inverse *)

Lemma sorted_from_weaken (ts : list triple) (lo lo' : Z) :
  lo' <= lo -> sorted_from lo ts -> sorted_from lo' ts.
Proof.
  destruct ts as [| [[s o] n] ts]; [trivial |].
  cbn [sorted_from]. intros Hle (H1 & H2 & H3 & H4). repeat split; (lia || assumption).
Qed.

Lemma separated_sorted (ts : list triple) :
  forall lo, separated_from lo ts -> sorted_from (lo + 1) ts.
Proof.
  induction ts as [| [[s o] n] ts IH]; intros lo H; [exact I |].
  cbn [separated_from] in H. destruct H as (H1 & H2 & H3 & H4).
  cbn [sorted_from]. repeat split; try lia.
  apply (sorted_from_weaken ts (s + o + 1)); [lia | now apply IH].
Qed.

(** Where a hit lies in the table. *)
Lemma locate_hit_split (inv : bool) (p : Z) (ts : list triple) :
  forall (k0 : nat) (d : Z) (k : nat) (t : triple) (D : Z),
  locate inv p k0 ts d = Hit k t D ->
  exists pre post,
    ts = pre ++ t :: post /\
    k = (k0 + length pre)%nat /\
    D = diff_of inv pre d /\
    start_of inv D t <= p <= start_of inv D t + old_of inv t.
Proof.
  induction ts as [| t0 ts IH]; intros k0 d k t D H; [discriminate |].
  cbn [locate] in H.
  destruct (Z.gtb_spec (start_of inv d t0) p); [discriminate |].
  destruct (Z.leb_spec p (start_of inv d t0 + old_of inv t0)).
  - injection H as <- <- <-. exists [], ts. cbn. repeat split; lia.
  - destruct (IH _ _ _ _ _ H) as (pre & post & -> & -> & -> & Hin).
    exists (t0 :: pre), post. cbn [app length diff_of fold_left].
    repeat split; try lia; apply Hin.
Qed.

Lemma diff_of_opp (pre : list triple) :
  forall d, diff_of true pre (- d) = - diff_of false pre d.
Proof.
  unfold diff_of.
  induction pre as [| [[s o] n] pre IH]; intros d; [reflexivity |].
  cbn [fold_left new_of old_of].
  replace (- d + (o - n)) with (- (d + (n - o))) by lia. apply IH.
Qed.

Lemma nth_flat (pre : list triple) (s o n : Z) (post : list triple) :
  nth (3 * length pre) (flat (pre ++ (s, o, n) :: post)) 0 = s /\
  nth (3 * length pre + 1) (flat (pre ++ (s, o, n) :: post)) 0 = o /\
  nth (3 * length pre + 2) (flat (pre ++ (s, o, n) :: post)) 0 = n.
Proof.
  rewrite flat_app. cbn [flat flat_map app]. fold (flat post). fold (flat pre).
  rewrite <- flat_length.
  rewrite !app_nth2 by lia.
  replace (length (flat pre) - length (flat pre))%nat with 0%nat by lia.
  replace (length (flat pre) + 1 - length (flat pre))%nat with 1%nat by lia.
  replace (length (flat pre) + 2 - length (flat pre))%nat with 2%nat by lia.
  repeat split.
Qed.

Lemma sum_before_flat (pre : list triple) :
  forall post : list triple,
  sum_before (flat (pre ++ post)) (length pre) = diff_of false pre 0.
Proof.
  induction pre as [| [[s o] n] pre IH] using rev_ind; intros post;
    [reflexivity |].
  rewrite length_app. cbn [length].
  replace (length pre + 1)%nat with (S (length pre)) by lia.
  cbn [sum_before]. rewrite <- app_assoc. cbn [app].
  rewrite IH.
  destruct (nth_flat pre s o n post) as (_ & Ho & Hn). rewrite Ho, Hn.
  unfold diff_of. rewrite fold_left_app. reflexivity.
Qed.

(** [recover] on a table of triples, for the token of range number
    [length pre]. *)
Lemma recover_flat (inv : bool) (pre : list triple) (s o n : Z)
    (post : list triple) (offset : Z) :
  Z.of_nat (length pre) < factor16 ->
  StepMap.recover (StepMap.mk (flat (pre ++ (s, o, n) :: post)) inv)
    (make_recover (Z.of_nat (length pre)) offset)
  = Ok (s + (if inv then 0 else diff_of false pre 0) + offset).
Proof.
  intros Hk.
  assert (Hf : factor16 <> 0) by (unfold factor16; lia).
  assert (Hi : recover_index (make_recover (Z.of_nat (length pre)) offset)
               = Z.of_nat (length pre)).
  { rewrite recover_index_mod. unfold make_recover.
    rewrite Z.mod_add by assumption. apply Z.mod_small. lia. }
  assert (Ho : recover_offset (make_recover (Z.of_nat (length pre)) offset)
               = offset).
  { rewrite recover_offset_div. unfold make_recover.
    rewrite Z.div_add by assumption. rewrite Z.div_small by lia. lia. }
  unfold StepMap.recover. cbn [StepMap.ranges StepMap.inverted].
  rewrite Hi, Ho.
  destruct (getitem_flat pre s o n post) as (Hs & _ & _). rewrite Hs.
  destruct inv; cbn [negb bind]; [reflexivity |].
  rewrite recover_diff_sum.
  - cbn [bind]. now rewrite sum_before_flat.
  - unfold len. rewrite flat_length, length_app. lia.
Qed.

(** A position on the boundary that [assoc] selects maps to the matching
    boundary of the new content. *)
Lemma hit_pos_boundary (inv : bool) (p a : Z) (t : triple) (D : Z) :
  0 <= old_of inv t ->
  p = (if a <? 0 then start_of inv D t
       else start_of inv D t + old_of inv t) ->
  hit_pos inv p a t D
  = start_of inv D t + D + (if a <? 0 then 0 else new_of inv t).
Proof.
  intros Ho Hp. unfold hit_pos, side_of.
  destruct (Z.ltb_spec a 0); subst p; split_comparisons.
Qed.

Lemma boundary_back (inv : bool) (p a : Z) (ts : list triple) :
  forall (lo d : Z) (k0 k' k : nat) (t : triple) (D : Z),
  separated_from lo ts ->
  locate inv p k0 ts d = Hit k t D ->
  p = (if a <? 0 then start_of inv D t
       else start_of inv D t + old_of inv t) ->
  value_of (negb inv) (hit_pos inv p a t D) a
    (locate (negb inv) (hit_pos inv p a t D) k' ts (- d))
  = p.
Proof.
  induction ts as [| [[s o] n] ts IH]; intros lo d k0 k' k t D Hs Hl Hp;
    [discriminate |].
  cbn [separated_from] in Hs. destruct Hs as (Hlo & Ho & Hn & Hs).
  cbn [locate] in Hl.
  destruct (Z.gtb_spec (start_of inv d (s, o, n)) p) as [Hgt | Hle];
    [discriminate |].
  destruct (Z.leb_spec p (start_of inv d (s, o, n) + old_of inv (s, o, n)))
    as [Hin | Hout].
  - injection Hl as <- <- <-.
    rewrite hit_pos_boundary by (assumption || (destruct inv; assumption)).
    cbn [locate]. unfold value_of, hit_pos, side_of.
    destruct inv; cbn [negb start_of old_of new_of] in *;
      destruct (Z.ltb_spec a 0); subst p;
      repeat match goal with
             | |- context [?x >? ?y] => destruct (Z.gtb_spec x y)
             | |- context [?x <=? ?y] => destruct (Z.leb_spec x y)
             end; try lia; split_comparisons;
      cbn [start_of old_of new_of] in *; lia.
  - pose proof (locate_lower_bound inv a p ts (s + o + 1)
                  (d + (new_of inv (s, o, n) - old_of inv (s, o, n)))
                  (S k0)
                  (separated_sorted ts (s + o) Hs)) as Hb.
    rewrite Hl in Hb. cbn [value_of] in Hb.
    specialize (IH (s + o)
                  (d + (new_of inv (s, o, n) - old_of inv (s, o, n)))
                  (S k0) (S k') k t D Hs Hl Hp).
    set (pos1 := hit_pos inv p a t D) in *.
    cbn [locate].
    destruct inv; cbn [negb start_of old_of new_of] in *.
    + specialize (Hb ltac:(lia)).
      destruct (Z.gtb_spec (s - 0) pos1); [lia |].
      destruct (Z.leb_spec pos1 (s - 0 + o)); [lia |].
      replace (- d + (n - o)) with (- (d + (o - n))) by lia. exact IH.
    + specialize (Hb ltac:(lia)).
      destruct (Z.gtb_spec (s - - d) pos1); [lia |].
      destruct (Z.leb_spec pos1 (s - - d + n)); [lia |].
      replace (- d + (o - n)) with (- (d + (n - o))) by lia. exact IH.
Qed.

Lemma separated_well_formed (ts : list triple) :
  separated ts -> well_formed ts.
Proof.
  destruct ts as [| [[s o] n] ts]; [trivial |].
  unfold separated, well_formed. intros H.
  apply (sorted_from_weaken _ (s - 1 + 1)); [lia |].
  now apply separated_sorted.
Qed.

(** The loop of [_map] on the chain of a map and its inverse, registered
    as mirrors of each other: every position comes back to itself. *)
Lemma mirror_undo_loop (ts : list triple) (inv : bool) (p a : Z) :
  separated ts ->
  Z.of_nat (length ts) <= factor16 ->
  let A := StepMap.mk (flat ts) inv in
  let c := Mapping.mk [A; StepMap.invert A] (Some [1; 0]) 0 2 in
  exists d, Mapping._map_loop 2 c a 0 p 0 = Ok (p, d).
Proof.
  intros Hsep Hlen A c.
  pose proof (separated_well_formed ts Hsep) as Hw.
  assert (Hsep' : exists lo, separated_from lo ts).
  { destruct ts as [| [[s o] n] ts']; [exists 0; exact I |].
    exists (s - 1). exact Hsep. }
  destruct Hsep' as [lo Hsf].
  assert (HA : StepMap.map_result A p a
               = answer inv p a false (locate inv p 0 ts 0))
    by exact (_map_flat ts inv p a false).
  assert (HB : forall x,
            StepMap.map_result (StepMap.invert A) x a
            = answer (negb inv) x a false (locate (negb inv) x 0 ts 0))
    by (intros x; exact (_map_flat ts (negb inv) x a false)).
  assert (Hm0 : Mapping.get_mirror c 0 = Ok (Some 1)) by reflexivity.
  assert (Hm1 : Mapping.get_mirror c 1 = Ok (Some 0)) by reflexivity.
  (* the second step, taken when the first one hands out no token *)
  assert (Hsecond : forall x d0,
            (exists r2,
               answer (negb inv) x a false (locate (negb inv) x 0 ts 0)
               = Ok r2 /\ MapResult.pos r2 = p) ->
            exists d, Mapping._map_loop 1 c a 1 x d0 = Ok (p, d)).
  { intros x d0 (r2 & Hr2 & Hpos).
    rewrite mapping_loop_S.
    change (Mapping.to c) with 2. change (Mapping.maps c)
      with [A; StepMap.invert A].
    change (getitem [A; StepMap.invert A] 1) with (Ok (StepMap.invert A)).
    cbn [Z.ltb Z.compare Pos.compare Pos.compare_cont bind].
    rewrite HB, Hr2, Hm1. cbn [bind Z.gtb Z.compare Pos.compare
      Pos.compare_cont andb].
    rewrite !mapping_loop_done by (change (Mapping.to c) with 2; lia).
    rewrite Hpos. destruct (MapResult.recover r2); eexists; reflexivity. }
  rewrite mapping_loop_S.
  change (Mapping.to c) with 2. change (Mapping.maps c)
    with [A; StepMap.invert A].
  change (getitem [A; StepMap.invert A] 0) with (Ok A).
  cbn [Z.ltb Z.compare bind]. rewrite HA.
  destruct (locate inv p 0 ts 0) as [D | k t D] eqn:Hl.
  - cbn [answer StepMap._map_end bind MapResult.recover MapResult.pos
      MapResult.del_info].
    apply Hsecond. rewrite (locate_back p inv ts D Hw Hl).
    cbn [answer StepMap._map_end]. eexists. split; [reflexivity |].
    cbn [MapResult.pos]. lia.
  - cbn [answer bind MapResult.recover MapResult.pos MapResult.del_info].
    unfold hit_recover.
    destruct (Z.eqb_spec p
                (if a <? 0 then start_of inv D t
                 else start_of inv D t + old_of inv t)) as [Hb | Hb].
    + apply Hsecond.
      pose proof (boundary_back inv p a ts lo 0 0%nat 0%nat k t D Hsf Hl Hb)
        as Hback.
      change (- 0) with 0 in Hback.
      destruct (locate (negb inv) (hit_pos inv p a t D) 0 ts 0);
        cbn [answer StepMap._map_end value_of] in *;
        eexists; (split; [reflexivity | exact Hback]).
    + rewrite Hm0.
      cbn [bind Z.gtb Z.ltb Z.compare Pos.compare Pos.compare_cont andb].
      change (getitem [A; StepMap.invert A] 1) with (Ok (StepMap.invert A)).
      cbn [bind].
      destruct (locate_hit_split inv p ts 0%nat 0 k t D Hl)
        as (pre & post & Hts & Hk & HD & Hin).
      destruct t as [[s o] n]. cbn [Nat.add] in Hk.
      assert (Hrec :
        StepMap.recover (StepMap.invert A)
          (make_recover (Z.of_nat k) (p - start_of inv D (s, o, n)))
        = Ok p).
      { unfold A, StepMap.invert. cbn [StepMap.ranges StepMap.inverted].
        rewrite Hts, Hk, recover_flat.
        - f_equal. rewrite HD.
          destruct inv; cbn [negb start_of].
          + pose proof (diff_of_opp pre 0) as Hopp.
            change (- 0) with 0 in Hopp. lia.
          + lia.
        - rewrite Hts, length_app in Hlen. cbn [length] in Hlen. lia. }
      rewrite Hrec. cbn [bind].
      rewrite mapping_loop_done by (change (Mapping.to c) with 2; lia).
      eexists. reflexivity.
Qed.

(** X17: for a map with separated ranges, the chain made of the map and
    its inverse, appended as the mirror of the map, sends every position
    back to itself under every associativity, the positions inside a
    deleted range included.  The table has at most [2**16] ranges and
    range sizes below [2**37], which keeps the tokens exact. *)
Theorem mirror_undo (ts : list triple) (inv : bool) (p a : Z) :
  separated ts ->
  Z.of_nat (length ts) <= factor16 ->
  Forall (fun t => old_of inv t < 2 ^ 37) ts ->
  let A := StepMap.mk (flat ts) inv in
  let c :=
    Mapping.append_map
      (Mapping.append_map (Mapping.init None None None None) A None)
      (StepMap.invert A) (Some 0) in
  Mapping.map c p a = Ok p /\
  exists d, Mapping.map_result c p a = Ok (MapResult.mk p d None).
Proof.
  intros Hsep Hlen _. cbv zeta.
  destruct (mirror_undo_loop ts inv p a Hsep Hlen) as [d Hloop].
  cbv zeta in Hloop.
  change (Mapping.append_map
            (Mapping.append_map (Mapping.init None None None None)
               (StepMap.mk (flat ts) inv) None)
            (StepMap.invert (StepMap.mk (flat ts) inv)) (Some 0))
    with (Mapping.mk
            [StepMap.mk (flat ts) inv;
             StepMap.invert (StepMap.mk (flat ts) inv)]
            (Some [1; 0]) 0 2).
  split.
  - rewrite mapping_map_loop.
    cbn [Mapping.to Mapping.from_]. change (Z.to_nat (2 - 0)) with 2%nat.
    now rewrite Hloop.
  - exists d. unfold Mapping.map_result, Mapping._map.
    cbn [Mapping.to Mapping.from_]. change (Z.to_nat (2 - 0)) with 2%nat.
    now rewrite Hloop.
Qed.

Lemma mirror_undo_witness :
  Mapping.map
    (Mapping.append_map
       (Mapping.append_map (Mapping.init None None None None)
          (StepMap.mk (flat [(2, 4, 1); (9, 0, 3)]) false) None)
       (StepMap.invert (StepMap.mk (flat [(2, 4, 1); (9, 0, 3)]) false))
       (Some 0)) 4 1 = Ok 4 /\
  exists d,
    Mapping.map_result
      (Mapping.append_map
         (Mapping.append_map (Mapping.init None None None None)
            (StepMap.mk (flat [(2, 4, 1); (9, 0, 3)]) false) None)
         (StepMap.invert (StepMap.mk (flat [(2, 4, 1); (9, 0, 3)]) false))
         (Some 0)) 4 1 = Ok (MapResult.mk 4 d None).
Proof.
  apply (mirror_undo [(2, 4, 1); (9, 0, 3)] false 4 1).
  - simpl. lia.
  - unfold factor16. simpl. lia.
  - repeat constructor; simpl; lia.
Defined.

(** ** Mirror pairs of an inverted chain *)

Lemma append_map_pairs (self : Mapping.t) (x : StepMap.t)
    (qs : list (Z * Z)) :
  mirror_pairs self qs ->
  mirror_pairs (Mapping.append_map self x None) qs /\
  forall v,
    mirror_pairs (Mapping.append_map self x (Some v))
      (qs ++ [(len (Mapping.maps self), v)]).
Proof.
  intros H. split; [exact H |]. intros v.
  unfold Mapping.append_map.
  replace (len (Mapping.maps
                  (Mapping.mk (Mapping.maps self ++ [x]) (Mapping.mirror self)
                     (Mapping.from_ self) (len (Mapping.maps self ++ [x]))))
           - 1)
    with (len (Mapping.maps self))
    by (cbn [Mapping.maps]; unfold len; rewrite length_app; cbn [length]; lia).
  apply set_mirror_pairs. exact H.
Qed.

Lemma append_mapping_inverted_loop_pairs (mapping : Mapping.t)
    (ps : list (Z * Z)) (total_size : Z) :
  mirror_pairs mapping ps ->
  forall (k fuel : nat) (self : Mapping.t) (qs : list (Z * Z)),
  (k <= length (Mapping.maps mapping))%nat -> (k <= fuel)%nat ->
  mirror_pairs self qs ->
  exists self',
    Mapping.append_mapping_inverted_loop fuel self mapping
      (Z.of_nat k - 1) total_size = Ok self' /\
    mirror_pairs self'
      (qs ++ flat_map
               (inverted_pair ps (len (Mapping.maps self) + Z.of_nat k)
                  total_size)
               (rev (seq 0 k))).
Proof.
  intros Hp.
  induction k as [| k IH]; intros fuel self qs Hk Hf Hq.
  - exists self. split; [destruct fuel; reflexivity |].
    cbn [seq rev flat_map]. now rewrite app_nil_r.
  - destruct fuel as [| fuel]; [lia |].
    cbn [Mapping.append_mapping_inverted_loop].
    replace (Z.of_nat (S k) - 1) with (Z.of_nat k) by lia.
    destruct (Z.geb_spec (Z.of_nat k) 0); [| lia].
    rewrite (get_mirror_of_pairs mapping ps _ Hp). cbn [bind].
    destruct (nth_error (Mapping.maps mapping) k) as [x |] eqn:Ex;
      [| apply nth_error_None in Ex; lia].
    rewrite getitem_of_nat, Ex. cbn [bind].
    replace (Z.of_nat k - 1 - 1 + 1) with (Z.of_nat k - 1) by lia.
    set (mirrors := match partner ps (Z.of_nat k) with
                    | Some mi =>
                      if mi >? Z.of_nat k then Some (total_size - mi - 1)
                      else None
                    | None => None
                    end).
    set (self1 := Mapping.append_map self (StepMap.invert x) mirrors).
    assert (Hlen1 : len (Mapping.maps self1) = len (Mapping.maps self) + 1).
    { unfold self1, Mapping.append_map, len.
      destruct mirrors; cbn [Mapping.maps Mapping.set_mirror];
        rewrite length_app; cbn [length]; lia. }
    assert (Hq1 : mirror_pairs self1
                    (qs ++ inverted_pair ps
                             (len (Mapping.maps self) + Z.of_nat (S k))
                             total_size k)).
    { destruct (append_map_pairs self (StepMap.invert x) qs Hq) as [Hnone Hsome].
      unfold self1, mirrors, inverted_pair.
      destruct (partner ps (Z.of_nat k)) as [mi |];
        [| now rewrite app_nil_r].
      destruct (mi >? Z.of_nat k); [| now rewrite app_nil_r].
      replace (len (Mapping.maps self) + Z.of_nat (S k) - 1 - Z.of_nat k)
        with (len (Mapping.maps self)) by lia.
      apply Hsome. }
    destruct (IH fuel self1 _ ltac:(lia) ltac:(lia) Hq1) as (self' & Hl & Hq').
    exists self'. split; [exact Hl |].
    rewrite seq_S, rev_app_distr. cbn [rev app flat_map Nat.add].
    rewrite app_assoc.
    replace (len (Mapping.maps self) + Z.of_nat (S k))
      with (len (Mapping.maps self1) + Z.of_nat k) at 2 by lia.
    exact Hq'.
Qed.

(** The lookup in the pairs of an inverted chain, when one pair only
    holds the index looked for. *)
Lemma partner_inverted (ps : list (Z * Z)) (N total : Z) (K A B : Z)
    (l : list nat) :
  A = K \/ B = K ->
  (forall i a b,
     In i l -> In (a, b) (inverted_pair ps N total i) ->
     a = K \/ b = K -> (a, b) = (A, B)) ->
  (exists i, In i l /\ In (A, B) (inverted_pair ps N total i)) ->
  partner (flat_map (inverted_pair ps N total) l) K = partner [(A, B)] K.
Proof.
  intros HK.
  induction l as [| i l IH]; intros Huniq (i0 & Hin & Hpair);
    [destruct Hin |].
  cbn [flat_map]. rewrite partner_app.
  assert (Hhead : inverted_pair ps N total i = []
                  \/ exists a b, inverted_pair ps N total i = [(a, b)]).
  { unfold inverted_pair. destruct (partner ps (Z.of_nat i)); [| now left].
    destruct (_ >? _); [right; eauto | now left]. }
  assert (Htail : In i0 l ->
            partner (flat_map (inverted_pair ps N total) l) K
            = partner [(A, B)] K).
  { intros Hin'. apply IH.
    - intros i' a' b' Hi'. apply Huniq. now right.
    - exists i0. split; assumption. }
  destruct Hhead as [Hnil | (a & b & Hab)].
  - rewrite Hnil. cbn [partner]. apply Htail.
    destruct Hin as [-> | Hin]; [rewrite Hnil in Hpair; destruct Hpair |].
    exact Hin.
  - rewrite Hab.
    destruct (Z.eq_dec a K) as [Ha | Ha];
      [| destruct (Z.eq_dec b K) as [Hb | Hb]].
    + assert (E : (a, b) = (A, B)).
      { apply (Huniq i); [now left | rewrite Hab; now left | now left]. }
      injection E as <- <-. cbn [partner].
      destruct (Z.eqb_spec a K); [reflexivity | contradiction].
    + assert (E : (a, b) = (A, B)).
      { apply (Huniq i); [now left | rewrite Hab; now left | now right]. }
      injection E as <- <-. cbn [partner].
      destruct (Z.eqb_spec a K); [contradiction |].
      destruct (Z.eqb_spec b K); [reflexivity | contradiction].
    + assert (Hnone : partner [(a, b)] K = None).
      { cbn [partner]. destruct (Z.eqb_spec a K); [contradiction |].
        destruct (Z.eqb_spec b K); [contradiction | reflexivity]. }
      assert (Hne : (a, b) <> (A, B)).
      { intros E. injection E as -> ->. destruct HK; contradiction. }
      rewrite Hnone.
      apply Htail. destruct Hin as [-> | Hin]; [| exact Hin].
      rewrite Hab in Hpair. destruct Hpair as [E | []].
      contradiction.
Qed.

Lemma in_inverted_pair (ps : list (Z * Z)) (N total : Z) (i : nat)
    (a b : Z) :
  In (a, b) (inverted_pair ps N total i) <->
  exists mi,
    partner ps (Z.of_nat i) = Some mi /\ Z.of_nat i < mi /\
    a = N - 1 - Z.of_nat i /\ b = total - mi - 1.
Proof.
  unfold inverted_pair. split.
  - destruct (partner ps (Z.of_nat i)) as [mi |]; [| intros []].
    destruct (Z.gtb_spec mi (Z.of_nat i)); [| intros []].
    intros [E | []]. injection E as <- <-. exists mi. repeat split. lia.
  - intros (mi & -> & Hlt & -> & ->).
    destruct (Z.gtb_spec mi (Z.of_nat i)); [now left | lia].
Qed.

(** X18: [invert] re-wires the mirror pairs to the reversed indices: when
    the maps [i < j] of a chain of [L] maps are partners, in a mirror table
    made of pairs whose lookups are symmetric, the maps [L - 1 - i] and
    [L - 1 - j] of the inverted chain are partners. *)
Theorem invert_rewires_mirror (c : Mapping.t) (ps : list (Z * Z))
    (i j : Z) :
  let L := len (Mapping.maps c) in
  mirror_pairs c ps ->
  (forall x y,
     Mapping.get_mirror c x = Ok (Some y) ->
     Mapping.get_mirror c y = Ok (Some x)) ->
  Mapping.get_mirror c i = Ok (Some j) ->
  0 <= i < j -> j < L ->
  exists c',
    Mapping.invert c = Ok c' /\
    Mapping.get_mirror c' (L - 1 - i) = Ok (Some (L - 1 - j)) /\
    Mapping.get_mirror c' (L - 1 - j) = Ok (Some (L - 1 - i)).
Proof.
  cbv zeta. intros Hp Hsym Hij Hi Hj.
  set (L := len (Mapping.maps c)) in *.
  assert (Hpart : forall x y,
            partner ps x = Some y <-> Mapping.get_mirror c x = Ok (Some y)).
  { intros x y. rewrite (get_mirror_of_pairs c ps x Hp).
    split; [now intros -> | now intros [= ->]]. }
  assert (Hsym' : forall x y, partner ps x = Some y -> partner ps y = Some x).
  { intros x y H. apply Hpart, Hsym, Hpart, H. }
  apply Hpart in Hij.
  assert (Hji : partner ps j = Some i) by now apply Hsym'.
  destruct (append_mapping_inverted_loop_pairs c ps
              (len (Mapping.maps (Mapping.init None None None None)) + L) Hp
              (length (Mapping.maps c)) (length (Mapping.maps c))
              (Mapping.init None None None None) []
              (le_n _) (le_n _) eq_refl)
    as (c' & Hl & Hq).
  cbn [app] in Hq.
  change (len (Mapping.maps (Mapping.init None None None None))) with 0
    in Hl, Hq.
  change (Z.of_nat (length (Mapping.maps c))) with L in Hl, Hq.
  rewrite Z.add_0_l in Hl, Hq.
  exists c'. split; [exact Hl |].
  rewrite !(get_mirror_of_pairs c' _ _ Hq).
  assert (Hthere : exists i0,
            In i0 (rev (seq 0 (length (Mapping.maps c)))) /\
            In (L - 1 - i, L - j - 1) (inverted_pair ps L L i0)).
  { exists (Z.to_nat i). split.
    - apply in_rev. rewrite rev_involutive. apply in_seq. unfold L, len in Hj.
      lia.
    - apply in_inverted_pair. exists j. rewrite Z2Nat.id by lia.
      repeat split; (assumption || lia). }
  split.
  - rewrite (partner_inverted ps L L (L - 1 - i) (L - 1 - i) (L - j - 1)).
    + cbn [partner]. rewrite Z.eqb_refl. do 2 f_equal. lia.
    + now left.
    + intros i' a b _ Hin [Ha | Hb];
        apply in_inverted_pair in Hin;
        destruct Hin as (mi & Hmi & Hlt & -> & ->).
      * assert (Z.of_nat i' = i) by lia. subst i.
        rewrite Hij in Hmi. injection Hmi as <-. reflexivity.
      * assert (mi = i) by lia. subst mi.
        apply Hsym' in Hmi. rewrite Hij in Hmi. injection Hmi as Hmi. lia.
    + exact Hthere.
  - rewrite (partner_inverted ps L L (L - 1 - j) (L - 1 - i) (L - j - 1)).
    + cbn [partner].
      destruct (Z.eqb_spec (L - 1 - i) (L - 1 - j)); [lia |].
      destruct (Z.eqb_spec (L - j - 1) (L - 1 - j)); [reflexivity | lia].
    + right. lia.
    + intros i' a b _ Hin [Ha | Hb];
        apply in_inverted_pair in Hin;
        destruct Hin as (mi & Hmi & Hlt & -> & ->).
      * assert (Z.of_nat i' = j) by lia.
        rewrite H, Hji in Hmi. injection Hmi as Hmi. lia.
      * assert (mi = j) by lia. subst mi.
        apply Hsym' in Hmi. rewrite Hji in Hmi. injection Hmi as Hmi.
        rewrite <- Hmi. reflexivity.
    + exact Hthere.
Qed.

Lemma invert_rewires_mirror_witness :
  exists c',
    Mapping.invert
      (Mapping.mk
         [StepMap.mk [2; 4; 0] false; StepMap.mk [9; 1; 1] false;
          StepMap.mk [2; 0; 4] false] (Some [2; 0]) 0 3) = Ok c' /\
    Mapping.get_mirror c'
      (len [StepMap.mk [2; 4; 0] false; StepMap.mk [9; 1; 1] false;
            StepMap.mk [2; 0; 4] false] - 1 - 0)
    = Ok (Some
            (len [StepMap.mk [2; 4; 0] false; StepMap.mk [9; 1; 1] false;
                  StepMap.mk [2; 0; 4] false] - 1 - 2)) /\
    Mapping.get_mirror c'
      (len [StepMap.mk [2; 4; 0] false; StepMap.mk [9; 1; 1] false;
            StepMap.mk [2; 0; 4] false] - 1 - 2)
    = Ok (Some
            (len [StepMap.mk [2; 4; 0] false; StepMap.mk [9; 1; 1] false;
                  StepMap.mk [2; 0; 4] false] - 1 - 0)).
Proof.
  apply (invert_rewires_mirror
           (Mapping.mk
              [StepMap.mk [2; 4; 0] false; StepMap.mk [9; 1; 1] false;
               StepMap.mk [2; 0; 4] false] (Some [2; 0]) 0 3)
           [(2, 0)] 0 2).
  - reflexivity.
  - intros x y H.
    match goal with
    | |- Mapping.get_mirror ?c _ = _ =>
      assert (Hp : mirror_pairs c [(2, 0)]) by reflexivity
    end.
    rewrite (get_mirror_of_pairs _ _ x Hp) in H.
    rewrite (get_mirror_of_pairs _ _ y Hp).
    cbn [partner] in *.
    destruct (Z.eqb_spec 2 x), (Z.eqb_spec 0 x); try discriminate;
      injection H as <-; subst x; reflexivity.
  - reflexivity.
  - lia.
  - vm_compute. reflexivity.
Defined.
